(** * Math-Playground: the numerical core of [src/utils/math.ts] and of the
    data utilities, embedded in Rocq.

    Numbers.  A TypeScript [number] is modelled as an extended real: a finite
    real of the Standard Library, one of the two infinities, or NaN.  The
    special values follow the IEEE/ECMAScript rules ([0 * Infinity = NaN],
    [x / NaN = NaN], [1 / 0 = Infinity], comparisons with NaN are false).
    Finite arithmetic is exact: rounding and overflow of binary64 are not
    modelled, and there is a single zero (no [-0]).  A property that rests
    on the exact value of a finite sum, product or quotient is therefore
    stated either on inputs on which binary64 computes without rounding or
    as a property in exact arithmetic, and says which.

    Control.  A call either returns, throws, or runs forever ([outcome]).
    Loops whose counter is an integer are unrolled over the list of counter
    values; the sampling loop of [generateFunctionPoints], whose counter is a
    real, is iterated with fuel. *)

From Stdlib Require Import Reals Lra Lia ZArith List String Ascii Bool.
Import ListNotations.

(* ================================================================= *)
(** ** Numbers *)

Inductive number : Type :=
| NaN
| PInf
| NInf
| Fin (r : R).

Declare Scope num_scope.
Delimit Scope num_scope with num.
Bind Scope num_scope with number.

Definition Rleb (x y : R) : bool := if Rle_dec x y then true else false.
Definition Rltb (x y : R) : bool := if Rlt_dec x y then true else false.
Definition Reqb (x y : R) : bool := if Req_dec_T x y then true else false.

Definition of_Z (z : Z) : number := Fin (IZR z).
Definition of_nat (n : nat) : number := Fin (INR n).

(** [a < b] *)
Definition lt (a b : number) : bool :=
  match a, b with
  | NaN, _ | _, NaN => false
  | Fin x, Fin y => Rltb x y
  | PInf, _ => false
  | _, NInf => false
  | NInf, _ => true
  | Fin _, PInf => true
  end.

(** [a <= b] *)
Definition le (a b : number) : bool :=
  match a, b with
  | NaN, _ | _, NaN => false
  | Fin x, Fin y => Rleb x y
  | NInf, _ => true
  | _, PInf => true
  | PInf, _ => false
  | Fin _, NInf => false
  end.

(** [a > b] and [a >= b] *)
Definition gt (a b : number) : bool := lt b a.
Definition ge (a b : number) : bool := le b a.

(** [a === b] *)
Definition seq_num (a b : number) : bool :=
  match a, b with
  | Fin x, Fin y => Reqb x y
  | PInf, PInf | NInf, NInf => true
  | _, _ => false
  end.

Definition neg (a : number) : number :=
  match a with
  | NaN => NaN
  | PInf => NInf
  | NInf => PInf
  | Fin x => Fin (- x)
  end.

Definition add (a b : number) : number :=
  match a, b with
  | NaN, _ | _, NaN => NaN
  | Fin x, Fin y => Fin (x + y)
  | PInf, NInf | NInf, PInf => NaN
  | PInf, _ | _, PInf => PInf
  | NInf, _ | _, NInf => NInf
  end.

Definition sub (a b : number) : number := add a (neg b).

(** The infinity that has the sign of [x]; NaN when [x] is zero. *)
Definition signed_inf (x : R) : number :=
  if Rltb 0 x then PInf else if Rltb x 0 then NInf else NaN.

Definition mul (a b : number) : number :=
  match a, b with
  | NaN, _ | _, NaN => NaN
  | Fin x, Fin y => Fin (x * y)
  | PInf, PInf | NInf, NInf => PInf
  | PInf, NInf | NInf, PInf => NInf
  | PInf, Fin y | Fin y, PInf => signed_inf y
  | NInf, Fin y | Fin y, NInf => signed_inf (- y)
  end.

Definition div (a b : number) : number :=
  match a, b with
  | NaN, _ | _, NaN => NaN
  | Fin x, Fin y => if Reqb y 0 then signed_inf x else Fin (x / y)
  | Fin _, _ => Fin 0
  | PInf, Fin y => if Rltb y 0 then NInf else PInf
  | NInf, Fin y => if Rltb y 0 then PInf else NInf
  | _, _ => NaN
  end.

Notation "a + b" := (add a b) : num_scope.
Notation "a - b" := (sub a b) : num_scope.
Notation "a * b" := (mul a b) : num_scope.
Notation "a / b" := (div a b) : num_scope.
Notation "- a" := (neg a) : num_scope.
Notation "a <? b" := (lt a b) : num_scope.
Notation "a <=? b" := (le a b) : num_scope.
Notation "a >? b" := (gt a b) (at level 70) : num_scope.
Notation "a >=? b" := (ge a b) (at level 70) : num_scope.
Notation "a === b" := (seq_num a b) (at level 70) : num_scope.
Notation "0" := (Fin 0) : num_scope.
Notation "1" := (Fin 1) : num_scope.
Notation "2" := (Fin 2) : num_scope.

(** [isFinite] and [isNaN] (the global functions) *)
Definition isFinite (a : number) : bool :=
  match a with Fin _ => true | _ => false end.
Definition isNaN (a : number) : bool :=
  match a with NaN => true | _ => false end.

(** Whether a real is an integer, and whether it is an odd one. *)
Definition is_int (x : R) : bool := Reqb (IZR (Zfloor x)) x.
Definition is_odd_int (x : R) : bool := is_int x && Z.odd (Zfloor x).

(** The [Math] object. *)
Module Math.

Definition PI : number := Fin Rtrigo1.PI.

Definition floor (a : number) : number :=
  match a with Fin x => Fin (IZR (Zfloor x)) | _ => a end.

(** [Math.min(a, b)] and [Math.max(a, b)]: NaN when an argument is. *)
Definition min (a b : number) : number :=
  match a, b with
  | NaN, _ | _, NaN => NaN
  | _, _ => if le a b then a else b
  end.

Definition max (a b : number) : number :=
  match a, b with
  | NaN, _ | _, NaN => NaN
  | _, _ => if le a b then b else a
  end.

(** [Math.min(...data)] and [Math.max(...data)]; of no argument they are
    [Infinity] and [-Infinity]. *)
Definition min_of (data : list number) : number := fold_left min data PInf.
Definition max_of (data : list number) : number := fold_left max data NInf.

(** [Math.exp]; on a finite argument the value is the exact exponential,
    which is never 0 and never infinite. *)
Definition exp (a : number) : number :=
  match a with
  | NaN => NaN
  | PInf => PInf
  | NInf => Fin 0
  | Fin x => Fin (Rtrigo_def.exp x)
  end.

Definition sin (a : number) : number :=
  match a with Fin x => Fin (Rtrigo_def.sin x) | _ => NaN end.

Definition cos (a : number) : number :=
  match a with Fin x => Fin (Rtrigo_def.cos x) | _ => NaN end.

(** [Math.pow(base, exponent)], case by case as ECMAScript's
    Number::exponentiate lists them. *)
Definition pow (base exponent : number) : number :=
  match exponent with
  | NaN => NaN
  | Fin y =>
      if Reqb y 0 then Fin 1
      else match base with
      | NaN => NaN
      | PInf => if Rltb 0 y then PInf else Fin 0
      | NInf =>
          if Rltb 0 y then (if is_odd_int y then NInf else PInf) else Fin 0
      | Fin x =>
          if Reqb x 0 then (if Rltb 0 y then Fin 0 else PInf)
          else if is_int y then Fin (powerRZ x (Zfloor y))
          else if Rltb x 0 then NaN
          else Fin (Rpower x y)
      end
  | PInf =>
      match base with
      | NaN => NaN
      | Fin x =>
          if Rltb 1 (Rabs x) then PInf
          else if Reqb (Rabs x) 1 then NaN else Fin 0
      | _ => PInf
      end
  | NInf =>
      match base with
      | NaN => NaN
      | Fin x =>
          if Rltb 1 (Rabs x) then Fin 0
          else if Reqb (Rabs x) 1 then NaN else PInf
      | _ => Fin 0
      end
  end.

End Math.

(* ================================================================= *)
(** ** Outcomes of a call *)

Inductive outcome (A : Type) : Type :=
| Ret (a : A)
| Throws
| Diverges.

Arguments Ret {A} a.
Arguments Throws {A}.
Arguments Diverges {A}.

Definition bind {A B : Type} (m : outcome A) (k : A -> outcome B) : outcome B :=
  match m with
  | Ret a => k a
  | Throws => Throws
  | Diverges => Diverges
  end.

Notation "x <- m ;; k" := (bind m (fun x => k))
  (at level 61, m at next level, right associativity).

(** A loop body run once for each element of [xs], in order. *)
Fixpoint foldM {A I : Type} (body : I -> A -> outcome A) (xs : list I) (acc : A)
  : outcome A :=
  match xs with
  | [] => Ret acc
  | i :: xs' => acc' <- body i acc ;; foldM body xs' acc'
  end.

(** The counter values of [for (let i = a; i <= k; i++)] with [a] an integer
    literal: [a, a+1, ..., floor k].  There are none when [k] is NaN or
    [-Infinity], and the loop never ends when [k] is [Infinity]. *)
Definition upto (a : Z) (k : number) : option (list Z) :=
  match k with
  | Fin r => Some (map (fun j => (a + Z.of_nat j)%Z)
                       (seq 0 (Z.to_nat (Zfloor r - a + 1))))
  | PInf => None
  | _ => Some []
  end.

Definition for_upto {A : Type} (a : Z) (k : number)
    (body : number -> A -> outcome A) (init : A) : outcome A :=
  match upto a k with
  | Some ids => foldM (fun i => body (of_Z i)) ids init
  | None => Diverges
  end.

(** The counter values of [for (let i = 0; i < n; i++)], [n] a length. *)
Definition below (n : nat) : list nat := seq 0 n.

(** [new Array(len)]: a [RangeError] unless [len] is an integer in
    [0, 2^32 - 1]. *)
Definition array_length (len : number) : outcome nat :=
  match len with
  | Fin r =>
      if is_int r && Rleb 0 r && Rleb r 4294967295
      then Ret (Z.to_nat (Zfloor r)) else Throws
  | _ => Throws
  end.

(* ================================================================= *)
(** ** Strings: the two regular-expression replacements of [parseFunction] *)

Open Scope string_scope.

(** A word character of a JavaScript regular expression: [[A-Za-z0-9_]]. *)
Definition is_word_char (c : ascii) : bool :=
  let n := nat_of_ascii c in
  (((48 <=? n) && (n <=? 57)) || ((65 <=? n) && (n <=? 90))
   || ((97 <=? n) && (n <=? 122)) || (n =? 95))%nat.

(** [s.replace(/\b<name>\(/g, rep)], where [name] starts with a word
    character and ends in an opening parenthesis.  The scan goes left to
    right; [prev_word] tells whether the character before the current
    position is a word character (there is a word boundary before a word
    character exactly when it is not), and [skip] counts the characters of a
    match that are still to be dropped.  The replacement text is not
    scanned again. *)
Fixpoint replace_from (pat rep : string) (prev_word : bool) (skip : nat)
    (s : string) : string :=
  match s with
  | EmptyString => EmptyString
  | String c s' =>
      match skip with
      | S k => replace_from pat rep (is_word_char c) k s'
      | O =>
          if negb prev_word && prefix pat s
          then rep ++ replace_from pat rep (is_word_char c)
                        (String.length pat - 1) s'
          else String c (replace_from pat rep (is_word_char c) 0 s')
      end
  end.

Definition replace_word_call (pat rep s : string) : string :=
  replace_from pat rep false 0 s.

(** The normalisation at the head of [parseFunction]:
    [expression.replace(/\bln\(/g, 'log(').replace(/\blog\(/g, 'log10(')]. *)
Definition normalize (expression : string) : string :=
  replace_word_call "log(" "log10(" (replace_word_call "ln(" "log(" expression).

(* ================================================================= *)
(** ** parseFunction *)

(** [MathFunction] of [@/types/math]. *)
Record MathFunction : Type := {
  expression : string;
  evaluate : number -> number
}.

(** The scope object [{ x, a: 1, b: 0, c: 0, d: 0, e: 0 }]. *)
Definition scope : Type := list (string * number).

Definition scope_of (x : number) : scope :=
  [("x", x); ("a", Fin 1); ("b", Fin 0); ("c", Fin 0); ("d", Fin 0);
   ("e", Fin 0)].

Section ParseFunction.

(** mathjs is an external library: [compile] parses a string into a node or
    throws ([None]); evaluating a node in a scope gives a number or throws.
    The two [console.error] calls write a diagnostic and do not change what
    is returned; they are left out. *)
Variable node : Type.
Variable compile : string -> option node.
Variable node_evaluate : node -> scope -> option number.

Definition parseFunction (expression : string) : MathFunction :=
  let normalized := normalize expression in
  match compile normalized with
  | Some nd =>
      let evaluate := fun x : number =>
        match node_evaluate nd (scope_of x) with
        | Some y => y
        | None => NaN
        end in
      {| expression := expression; evaluate := evaluate |}
  | None =>
      {| expression := "x"; evaluate := fun x : number => x |}
  end.

End ParseFunction.

Arguments parseFunction {node} compile node_evaluate expression.

(** A small stand-in for mathjs that knows three expressions, used to
    exercise [parseFunction] on concrete inputs: [log] is the natural
    logarithm and [log10] the logarithm in base 10, as in mathjs. *)
Inductive toy_node : Type := TVar | TLog | TLog10.

Definition toy_compile (s : string) : option toy_node :=
  if String.eqb s "x" then Some TVar
  else if String.eqb s "log(x)" then Some TLog
  else if String.eqb s "log10(x)" then Some TLog10
  else None.

Definition scope_x (sc : scope) : option number :=
  match sc with
  | (_, x) :: _ => Some x
  | [] => None
  end.

Definition toy_evaluate (nd : toy_node) (sc : scope) : option number :=
  match nd, scope_x sc with
  | TVar, Some x => Some x
  | TLog, Some (Fin x) => if Rltb 0 x then Some (Fin (ln x)) else None
  | TLog10, Some (Fin x) => if Rltb 0 x then Some (Fin (ln x / ln 10)) else None
  | _, _ => None
  end.

Close Scope string_scope.

(* ================================================================= *)
(** ** Arrays and optional parameters *)

(** A parameter with a default value: [undefined] is [None]. *)
Definition default {A : Type} (d : A) (o : option A) : A :=
  match o with
  | Some v => v
  | None => d
  end.

(** [a[i] = v] for an index [i]: inside the array the element is replaced;
    past its end the array grows, and the slots in between are holes, which
    read as [undefined], that is NaN in arithmetic. *)
Fixpoint array_set (a : list number) (i : nat) (v : number) : list number :=
  match a, i with
  | [], O => [v]
  | [], S i' => NaN :: array_set [] i' v
  | _ :: a', O => v :: a'
  | e :: a', S i' => e :: array_set a' i' v
  end.

(** [a[i]] read as a number: [undefined] past the end. *)
Definition array_get (a : list number) (i : nat) : number := nth i a NaN.

(** The array index a number denotes as a property key, if it denotes one:
    an integer in [0, 2^32 - 2]. *)
Definition array_index (i : number) : option nat :=
  match i with
  | Fin r =>
      if is_int r && Rleb 0 r && Rleb r 4294967294
      then Some (Z.to_nat (Zfloor r)) else None
  | _ => None
  end.

(** [a[i]++] for a number [i].  When [i] is not an array index (NaN, a
    negative or fractional number, an infinity) the statement updates a
    named property of the array object and no element changes. *)
Definition array_incr (a : list number) (i : number) : list number :=
  match array_index i with
  | Some j => array_set a j (array_get a j + 1)
  | None => a
  end.

(* ================================================================= *)
(** ** math.ts *)

(** [Point] and [ComplexNumber] of [@/types/math]. *)
Record Point : Type := { x : number; y : number }.
Record ComplexNumber : Type := { real : number; imag : number }.

(** The range argument [{ min, max, step }]. *)
Record FunctionRange : Type := { min : number; max : number; step : number }.

(** A function argument [(x: number) => number]; [None] when the call
    throws. *)
Definition jsfun : Type := number -> option number.

Module MathUtils.

(** The loop of [generateFunctionPoints],
    [for (let x = range.min; x <= range.max; x += range.step)], from the
    state [(x, points)]; [None] when the fuel runs out before the loop
    ends.  The sum [x + step] is the exact one: the values visited are
    those of the code where this addition does not round. *)
Fixpoint sample_loop (fuel : nat) (f : jsfun) (range : FunctionRange)
    (x : number) (points : list Point) : option (list Point) :=
  match fuel with
  | O => None
  | S fuel' =>
      if (x <=? max range)%num then
        match f x with
        | Some y =>
            if isFinite y && negb (isNaN y)
            then sample_loop fuel' f range (x + step range)
                   (points ++ [{| x := x; y := y |}])
            else sample_loop fuel' f range (x + step range) points
        | None => sample_loop fuel' f range (x + step range) points
        end
      else Some points
  end.

Definition generateFunctionPoints (fuel : nat) (f : jsfun)
    (range : FunctionRange) : option (list Point) :=
  sample_loop fuel f range (min range) [].

(** The inner function of [binomialPMF]; its parameters are [(n, k)]. *)
Definition binomialCoefficient (n k : number) : outcome number :=
  if ((k <? 0) || (k >? n))%num then Ret (Fin 0)
  else if ((k === 0) || (k === n))%num then Ret (Fin 1)
  else for_upto 1 k
         (fun i result => Ret (result * (n - i + 1) / i)%num) (Fin 1).

Definition binomialPMF (k n p : number) : outcome number :=
  c <- binomialCoefficient n k ;;
  Ret (c * Math.pow p k * Math.pow (1 - p) (n - k))%num.

Definition factorial (n : number) : outcome number :=
  if (n <? 0)%num then Ret NaN
  else if ((n === 0) || (n === 1))%num then Ret (Fin 1)
  else for_upto 2 n (fun i result => Ret (result * i)%num) (Fin 1).

Definition poissonPMF (k lambda : number) : outcome number :=
  fk <- factorial k ;;
  Ret ((Math.pow lambda k * Math.exp (- lambda)) / fk)%num.

(** One output bin of [dft]: the inner loop over [n], from [(0, 0)]. *)
Definition dft_bin (signal : list number) (k : nat) : ComplexNumber :=
  let N := List.length signal in
  fold_left
    (fun acc n =>
       let angle := ((2 * Math.PI * of_nat k * of_nat n) / of_nat N)%num in
       {| real := (real acc + array_get signal n * Math.cos angle)%num;
          imag := (imag acc - array_get signal n * Math.sin angle)%num |})
    (below N) {| real := Fin 0; imag := Fin 0 |}.

Definition dft (signal : list number) : list ComplexNumber :=
  let N := List.length signal in
  fold_left (fun result k => result ++ [dft_bin signal k]) (below N) [].

Definition generateSignalWithHarmonics (baseFrequency harmonics : number)
    (amplitude samples : option number) : outcome (list number) :=
  let amplitude := default (Fin 1) amplitude in
  let samples := default (Fin 1000) samples in
  len <- array_length samples ;;
  foldM
    (fun i signal =>
       let t := (of_nat i / samples)%num in
       value <- for_upto 1 harmonics
                  (fun h value =>
                     let harmonicFreq := (baseFrequency * h)%num in
                     let harmonicAmp := (amplitude / h)%num in
                     Ret (value
                          + harmonicAmp
                            * Math.sin (2 * Math.PI * harmonicFreq * t))%num)
                  (Fin 0) ;;
       Ret (array_set signal i value))
    (below len) (repeat (Fin 0) len).

End MathUtils.

(* ================================================================= *)
(** ** The data utilities (imported by the pages as [@/utils/data]) *)

Module DataUtils.

Definition generateHistogram (data : list number) (bins : option number)
    (min max : option number) : outcome (list Point) :=
  let bins := default (Fin 30) bins in
  let actualMin := match min with Some m => m | None => Math.min_of data end in
  let actualMax := match max with Some m => m | None => Math.max_of data end in
  let binWidth := ((actualMax - actualMin) / bins)%num in
  len <- array_length bins ;;
  let histogram :=
    fold_left
      (fun histogram value =>
         if ((value >=? actualMin) && (value <=? actualMax))%num then
           let binIndex :=
             Math.min (Math.floor ((value - actualMin) / binWidth)%num)
                      (bins - 1)%num in
           array_incr histogram binIndex
         else histogram)
      data (repeat (Fin 0) len) in
  Ret (fold_left
         (fun points i =>
            let x := (actualMin + of_nat i * binWidth + binWidth / 2)%num in
            let y := array_get histogram i in
            points ++ [{| x := x; y := y |}])
         (below len) []).

Definition generateSignalWithHarmonics (baseFrequency harmonics : number)
    (amplitude samples : option number) : outcome (list number) :=
  let amplitude := default (Fin 1) amplitude in
  let samples := default (Fin 1000) samples in
  len <- array_length samples ;;
  foldM
    (fun i signal =>
       let t := (of_nat i / samples)%num in
       value <- for_upto 1 harmonics
                  (fun h value =>
                     let harmonicFreq := (baseFrequency * h)%num in
                     let harmonicAmp := (amplitude / h)%num in
                     Ret (value
                          + harmonicAmp
                            * Math.sin (2 * Math.PI * harmonicFreq * t))%num)
                  (Fin 0) ;;
       Ret (array_set signal i value))
    (below len) (repeat (Fin 0) len).

End DataUtils.

(* ================================================================= *)
(** ** Quantities the specification speaks of *)

(** The iteration count the specification gives for the sampling loop,
    [ceil((max - min) / step) + 1], and the one with [floor]. *)
Definition ceil_count (lo hi st : R) : Z := (Zceil ((hi - lo) / st) + 1)%Z.
Definition floor_count (lo hi st : R) : Z := (Zfloor ((hi - lo) / st) + 1)%Z.

(** The values the sampling loop visits: [m] of them, from [lo], [st]
    apart. *)
Fixpoint grid (lo st : R) (m : nat) : list number :=
  match m with
  | O => []
  | S m' => Fin lo :: grid (lo + st) st m'
  end.

(** What one visited value contributes to the result: the point
    [(x, f x)] when [f x] is a finite number, nothing otherwise. *)
Definition sample (f : jsfun) (x : number) : list Point :=
  match f x with
  | Some y => if isFinite y then [{| x := x; y := y |}] else []
  | None => []
  end.

(** The sum of [binomialPMF(k, n, p)] over [k = 0..n]. *)
Definition binomial_total (n : nat) (p : number) : outcome number :=
  foldM (fun k acc => v <- MathUtils.binomialPMF (of_nat k) (of_nat n) p ;;
                      Ret (acc + v)%num)
        (seq 0 (S n)) (Fin 0).

(** The sum of the [y] values of a histogram, and the number of data values
    inside the closed interval [[lo, hi]]. *)
Definition sum_y (points : list Point) : number :=
  fold_left (fun acc pt => (acc + y pt)%num) points (Fin 0).

Definition count_within (lo hi : number) (data : list number) : nat :=
  List.length (filter (fun v => ((v >=? lo) && (v <=? hi))%num) data).

(** The partial sums the inner loop of [dft] accumulates on the constant
    signal [c], for the angle [theta * n]. *)
Fixpoint cos_sum (theta : R) (m : nat) : R :=
  match m with
  | O => 0
  | S m' => cos_sum theta m' + cos (theta * INR m')
  end.

Fixpoint sin_sum (theta : R) (m : nat) : R :=
  match m with
  | O => 0
  | S m' => sin_sum theta m' + sin (theta * INR m')
  end.

(** The angle between consecutive samples in bin [k] of a transform of
    length [N]. *)
Definition bin_angle (N k : nat) : R := (2 * PI * INR k / INR N)%R.

(** A range whose three fields are finite. *)
Definition finite_range (lo hi st : R) : FunctionRange :=
  {| min := Fin lo; max := Fin hi; step := Fin st |}.

(* ================================================================= *)
(** ** More of the [Math] object and of the operators on numbers *)

Module MathMore.

Definition abs (a : number) : number :=
  match a with
  | NaN => NaN
  | Fin x => Fin (Rabs x)
  | _ => PInf
  end.

Definition sqrt (a : number) : number :=
  match a with
  | Fin x => if Rltb x 0 then NaN else Fin (R_sqrt.sqrt x)
  | PInf => PInf
  | _ => NaN
  end.

Definition ceil (a : number) : number :=
  match a with Fin x => Fin (IZR (Zceil x)) | _ => a end.

End MathMore.



(** [v || d] where [v] is a number or [undefined]: [d] replaces
    [undefined], 0 and NaN, the falsy values. *)
Definition or_else (v : option number) (d : number) : number :=
  match v with
  | Some (Fin x) => if Reqb x 0 then d else Fin x
  | Some NaN => d
  | Some w => w
  | None => d
  end.

(** [a[i]] as a value: [undefined] ([None]) past the end. *)
Definition array_at (a : list number) (i : nat) : option number :=
  nth_error a i.

(** The counter values of [for (let i = 0; i < n; i++)] for a number [n]:
    [0, ..., ceil n - 1].  There are none when [n] is NaN, negative or
    [-Infinity], and the loop never ends when [n] is [Infinity]. *)
Definition below_num (n : number) : option (list nat) :=
  match n with
  | Fin r => Some (seq 0 (Z.to_nat (Zceil r)))
  | PInf => None
  | _ => Some []
  end.

Definition for_below {A : Type} (n : number)
    (body : number -> A -> outcome A) (init : A) : outcome A :=
  match below_num n with
  | Some ids => foldM (fun i => body (of_nat i)) ids init
  | None => Diverges
  end.

(** The loop [for (let x = lo; x <= hi; x += st) acc = body(x, acc)] from
    the state [(x, acc)]; [None] when the fuel runs out before the loop
    ends.  As in [MathUtils.sample_loop], the sum [x + st] is the exact
    one. *)
Fixpoint range_loop {A : Type} (fuel : nat) (hi st : number)
    (body : number -> A -> A) (x : number) (acc : A) : option A :=
  match fuel with
  | O => None
  | S fuel' =>
      if (x <=? hi)%num
      then range_loop fuel' hi st body (x + st)%num (body x acc)
      else Some acc
  end.

(* ================================================================= *)
(** ** math.ts: derivative, tangent line, densities, waveforms *)

Module Calculus.

(** [calculateDerivative(f, x, h = 1e-8)]; the call throws when [f] does. *)
Definition calculateDerivative (f : jsfun) (x : number) (h : option number)
  : outcome number :=
  let h := default (Fin (1 / 100000000)) h in
  match f (x + h)%num with
  | Some a =>
      match f (x - h)%num with
      | Some b => Ret ((a - b) / (2 * h))%num
      | None => Throws
      end
  | None => Throws
  end.

(** [generateTangentLine(f, x0, range)]: [None] when the fuel runs out in
    the loop, [Some Throws] when [f] throws before it. *)
Definition generateTangentLine (fuel : nat) (f : jsfun) (x0 : number)
    (range : FunctionRange) : option (outcome (list Point)) :=
  match calculateDerivative f x0 None with
  | Ret slope =>
      match f x0 with
      | Some y0 =>
          option_map Ret
            (range_loop fuel (max range) (step range)
               (fun x points =>
                  let y := (y0 + slope * (x - x0))%num in
                  if isFinite y && negb (isNaN y)
                  then points ++ [{| x := x; y := y |}]
                  else points)
               (min range) [])
      | None => Some Throws
      end
  | Throws => Some Throws
  | Diverges => Some Diverges
  end.

End Calculus.

Module Distributions.

(** [normalPDF(x, mean = 0, stdDev = 1)] *)
Definition normalPDF (x : number) (mean stdDev : option number) : number :=
  let mean := default (Fin 0) mean in
  let stdDev := default (Fin 1) stdDev in
  let coefficient := (1 / (stdDev * MathMore.sqrt (2 * Math.PI)))%num in
  let exponent :=
    (- Math.pow (x - mean) 2 / (2 * Math.pow stdDev 2))%num in
  (coefficient * Math.exp exponent)%num.

(** [erf(x)], the Abramowitz and Stegun approximation. *)
Definition erf (x : number) : number :=
  let a1 := Fin (254829592 / 1000000000) in
  let a2 := Fin (- (284496736 / 1000000000)) in
  let a3 := Fin (1421413741 / 1000000000) in
  let a4 := Fin (- (1453152027 / 1000000000)) in
  let a5 := Fin (1061405429 / 1000000000) in
  let p := Fin (3275911 / 10000000) in
  let sign := if (x >=? 0)%num then Fin 1 else Fin (-1) in
  let x := MathMore.abs x in
  let t := (1 / (1 + p * x))%num in
  let y :=
    (1 - (((((a5 * t + a4) * t) + a3) * t + a2) * t + a1) * t
         * Math.exp (- x * x))%num in
  (sign * y)%num.

(** [normalCDF(x, mean = 0, stdDev = 1)] *)
Definition normalCDF (x : number) (mean stdDev : option number) : number :=
  let mean := default (Fin 0) mean in
  let stdDev := default (Fin 1) stdDev in
  let z := ((x - mean) / stdDev)%num in
  (Fin (1 / 2) * (1 + erf (z / MathMore.sqrt 2)))%num.

Definition exponentialPDF (x lambda : number) : number :=
  if (x <? 0)%num then Fin 0
  else (lambda * Math.exp (- lambda * x))%num.

End Distributions.

Module Signals.

(** [generateSquareWave(frequency, amplitude = 1, samples = 1000)] *)
Definition generateSquareWave (frequency : number)
    (amplitude samples : option number) : outcome (list number) :=
  let amplitude := default (Fin 1) amplitude in
  let samples := default (Fin 1000) samples in
  for_below samples
    (fun i signal =>
       let t := (i / samples)%num in
       let value := Math.sin (2 * Math.PI * frequency * t)%num in
       Ret (signal
            ++ [if (value >? 0)%num then amplitude else (- amplitude)%num]))
    [].



End Signals.

(* ================================================================= *)
(** ** Functions and quantities used to state properties of the rest *)

(** The JavaScript functions [v => a * v * v + b * v + c] and
    [v => a * v + b]. *)
Definition quadratic (a b c : R) : jsfun :=
  fun v => Some (Fin a * v * v + Fin b * v + Fin c)%num.

Definition affine (a b : R) : jsfun :=
  fun v => Some (Fin a * v + Fin b)%num.

(** The point of the line through [(x0, y0)] with the given slope, above
    [v]. *)
Definition tangent_point (slope y0 x0 v : number) : Point :=
  {| x := v; y := (y0 + slope * (v - x0))%num |}.

(* ================================================================= *)
(** ** The data utilities: distribution data and Fourier data *)

(** The [type] argument of [generateDistributionData], a union of four
    string literals. *)
Module Dist.
Inductive type : Type := normal | binomial | poisson | exponential.
End Dist.

(** A [Record<string, number>] as the list of its bindings; the first
    binding of a key is the one in force, and a key that is not bound reads
    as [undefined]. *)
Definition params : Type := list (string * number).

Fixpoint lookup (ps : params) (key : string) : option number :=
  match ps with
  | [] => None
  | (k, v) :: ps' => if String.eqb k key then Some v else lookup ps' key
  end.

(** The object [generateFourierData] returns. *)
Record FourierData : Type := {
  timeDomain : list Point;
  frequencyDomain : list Point;
  magnitude : list Point
}.

Module Data.

(** [generateDistributionData(type, params, range)].  The continuous
    families run the loop over the range, with fuel ([None] when it runs
    out); the discrete ones count up to a number. *)
Definition generateDistributionData (fuel : nat) (type : Dist.type)
    (ps : params) (range : FunctionRange) : option (outcome (list Point)) :=
  match type with
  | Dist.normal =>
      let mean := or_else (lookup ps "mean") (Fin 0) in
      let stdDev := or_else (lookup ps "stdDev") (Fin 1) in
      option_map Ret
        (range_loop fuel (max range) (step range)
           (fun x points =>
              let y := Distributions.normalPDF x (Some mean) (Some stdDev) in
              points ++ [{| x := x; y := y |}])
           (min range) [])
  | Dist.binomial =>
      let n := or_else (lookup ps "n") (Fin 10) in
      let p := or_else (lookup ps "p") (Fin (1 / 2)) in
      Some (for_upto 0 n
              (fun k points =>
                 y <- MathUtils.binomialPMF k n p ;;
                 Ret (points ++ [{| x := k; y := y |}]))
              [])
  | Dist.poisson =>
      let lambda := or_else (lookup ps "lambda") (Fin 1) in
      let maxK := Math.min (Fin 20) (MathMore.ceil (lambda * Fin 3)%num) in
      Some (for_upto 0 maxK
              (fun k points =>
                 y <- MathUtils.poissonPMF k lambda ;;
                 Ret (points ++ [{| x := k; y := y |}]))
              [])
  | Dist.exponential =>
      let expLambda := or_else (lookup ps "lambda") (Fin 1) in
      option_map Ret
        (range_loop fuel (max range) (step range)
           (fun x points =>
              let y := Distributions.exponentialPDF x expLambda in
              points ++ [{| x := x; y := y |}])
           (min range) [])
  end.

(** [generateFourierData(signal, sampleRate = 1000)] *)
Definition generateFourierData (signal : list number)
    (sampleRate : option number) : outcome FourierData :=
  let sampleRate := default (Fin 1000) sampleRate in
  let timeDomain :=
    fold_left
      (fun timeDomain i =>
         let t := (of_nat i / sampleRate)%num in
         timeDomain ++ [{| x := t; y := array_get signal i |}])
      (below (List.length signal)) [] in
  let frequencies := (of_nat (List.length signal) / 2)%num in
  match below_num frequencies with
  | Some ids =>
      fm <- foldM
              (fun i (fm : list Point * list Point) =>
                 let freq :=
                   ((of_nat i * sampleRate)
                    / of_nat (List.length signal))%num in
                 let magnitude_val :=
                   MathMore.abs (or_else (array_at signal i) (Fin 0)) in
                 Ret (fst fm ++ [{| x := freq; y := magnitude_val |}],
                      snd fm ++ [{| x := freq; y := magnitude_val |}]))
              ids ([], []) ;;
      Ret {| timeDomain := timeDomain;
             frequencyDomain := fst fm;
             magnitude := snd fm |}
  | None => Diverges
  end.

End Data.

(* ================================================================= *)
(** ** constants.ts: ranges, interpolation, statistics *)

Module Constants.

(** [generateRange(start, end, step = 1)]; [None] when the fuel runs out. *)
Definition generateRange (fuel : nat) (start end_ : number)
    (step : option number) : option (list number) :=
  let step := default (Fin 1) step in
  range_loop fuel end_ step (fun i result => result ++ [i]) start [].

Definition clamp (value min max : number) : number :=
  Math.min (Math.max value min) max.

Definition lerp (start end_ t : number) : number :=
  (start + (end_ - start) * t)%num.

Definition mapRange (value fromMin fromMax toMin toMax : number) : number :=
  (toMin + ((value - fromMin) / (fromMax - fromMin)) * (toMax - toMin))%num.

Definition calculateMean (arr : list number) : number :=
  if (List.length arr =? 0)%nat then Fin 0
  else (fold_left (fun sum val => sum + val) arr (Fin 0)
        / of_nat (List.length arr))%num.

Definition calculateStdDev (arr : list number) : number :=
  if (List.length arr =? 0)%nat then Fin 0
  else
    let mean := calculateMean arr in
    let variance :=
      (fold_left (fun sum val => sum + Math.pow (val - mean) 2) arr (Fin 0)
       / of_nat (List.length arr))%num in
    MathMore.sqrt variance.

Definition normalizeArray (arr : list number) : list number :=
  let min := Math.min_of arr in
  let max := Math.max_of arr in
  let range := (max - min)%num in
  if (range === 0)%num then map (fun _ => Fin (1 / 2)) arr
  else map (fun val => ((val - min) / range)%num) arr.

End Constants.

(* ================================================================= *)
(** ** Sampling: the functions that call [Math.random] *)

Module MathLog.

(** [Math.log], the natural logarithm. *)
Definition log (a : number) : number :=
  match a with
  | Fin x => if Rltb 0 x then Fin (ln x) else if Reqb x 0 then NInf else NaN
  | PInf => PInf
  | _ => NaN
  end.

End MathLog.

(** [a[i]] for a number [i]: [undefined] unless [i] is an index inside the
    array. *)
Definition array_at_num (a : list number) (i : number) : option number :=
  match array_index i with
  | Some j => nth_error a j
  | None => None
  end.

(** [sum + val] where [val] may be [undefined]. *)
Definition add_value (sum : number) (val : option number) : number :=
  match val with
  | Some v => (sum + v)%num
  | None => NaN
  end.

(** The [type] argument of [generatePopulation]. *)
Module Pop.
Inductive type : Type := uniform | normal | exponential | binomial.
End Pop.

Module Sampling.

Section Random.

(** The values the successive calls of [Math.random()] return in a run;
    the state threaded through the functions is the number of calls made so
    far. *)
Variable random : nat -> number.

(** [randomInRange(min, max)] and [randomIntInRange(min, max)] of
    constants.ts. *)
Definition randomInRange (min max : number) (s : nat) : number * nat :=
  ((random s * (max - min) + min)%num, S s).

Definition randomIntInRange (min max : number) (s : nat) : number * nat :=
  let r := randomInRange min (max + 1)%num s in
  (Math.floor (fst r), snd r).

(** [generatePopulation(type, size = 10000, params = {})] *)
Definition generatePopulation (type : Pop.type) (size : option number)
    (ps : option params) (s : nat) : outcome (list number * nat) :=
  let size := default (Fin 10000) size in
  let ps := default [] ps in
  match type with
  | Pop.uniform =>
      let min := or_else (lookup ps "min") (Fin 0) in
      let max := or_else (lookup ps "max") (Fin 100) in
      for_below size
        (fun i (st : list number * nat) =>
           Ret (fst st ++ [(random (snd st) * (max - min) + min)%num],
                S (snd st)))
        ([], s)
  | Pop.normal =>
      let mean := or_else (lookup ps "mean") (Fin 50) in
      let stdDev := or_else (lookup ps "stdDev") (Fin 15) in
      for_below size
        (fun i (st : list number * nat) =>
           let u1 := random (snd st) in
           let u2 := random (S (snd st)) in
           let z0 :=
             (MathMore.sqrt (Fin (-2) * MathLog.log u1)
              * Math.cos (2 * Math.PI * u2))%num in
           Ret (fst st ++ [(mean + stdDev * z0)%num], S (S (snd st))))
        ([], s)
  | Pop.exponential =>
      let lambda := or_else (lookup ps "lambda") (Fin (1 / 10)) in
      for_below size
        (fun i (st : list number * nat) =>
           Ret (fst st
                ++ [(- MathLog.log (1 - random (snd st)) / lambda)%num],
                S (snd st)))
        ([], s)
  | Pop.binomial =>
      let n := or_else (lookup ps "n") (Fin 10) in
      let p := or_else (lookup ps "p") (Fin (1 / 2)) in
      for_below size
        (fun i (st : list number * nat) =>
           trial <- for_below n
                      (fun j (ts : number * nat) =>
                         Ret (if (random (snd ts) <? p)%num
                              then (fst ts + 1)%num else fst ts,
                              S (snd ts)))
                      (Fin 0, snd st) ;;
           Ret (fst st ++ [fst trial], snd trial))
        ([], s)
  end.

(** [generateSampleMeans(population, sampleSize, numSamples)] *)
Definition generateSampleMeans (population : list number)
    (sampleSize numSamples : number) (s : nat)
  : outcome (list number * nat) :=
  for_below numSamples
    (fun i (st : list number * nat) =>
       drawn <- for_below sampleSize
                  (fun j (ds : list (option number) * nat) =>
                     let index :=
                       Math.floor
                         (random (snd ds)
                          * of_nat (List.length population))%num in
                     Ret (fst ds ++ [array_at_num population index],
                          S (snd ds)))
                  ([], snd st) ;;
       let mean :=
         (fold_left add_value (fst drawn) (Fin 0) / sampleSize)%num in
       Ret (fst st ++ [mean], snd drawn))
    ([], s).

End Random.

End Sampling.

(* ================================================================= *)
(** * Properties *)

Open Scope R_scope.

(** ** Comparisons of reals as booleans *)

Lemma Rleb_true (a b : R) : a <= b -> Rleb a b = true.
Proof.
  intros H. unfold Rleb.
  destruct (Rle_dec a b); [reflexivity | contradiction].
Qed.

Lemma Rleb_false (a b : R) : b < a -> Rleb a b = false.
Proof. intros H. unfold Rleb. destruct (Rle_dec a b); [lra | reflexivity]. Qed.

Lemma Rltb_true (a b : R) : a < b -> Rltb a b = true.
Proof.
  intros H. unfold Rltb.
  destruct (Rlt_dec a b); [reflexivity | contradiction].
Qed.

Lemma Rltb_false (a b : R) : b <= a -> Rltb a b = false.
Proof. intros H. unfold Rltb. destruct (Rlt_dec a b); [lra | reflexivity]. Qed.

Lemma Reqb_true (a b : R) : a = b -> Reqb a b = true.
Proof.
  intros H. unfold Reqb.
  destruct (Req_dec_T a b); [reflexivity | contradiction].
Qed.

Lemma Reqb_false (a b : R) : a <> b -> Reqb a b = false.
Proof.
  intros H. unfold Reqb.
  destruct (Req_dec_T a b); [contradiction | reflexivity].
Qed.

Lemma Rltb_spec (a b : R) : Rltb a b = true <-> a < b.
Proof. unfold Rltb. destruct (Rlt_dec a b); split; intros; try easy. Qed.

Lemma Rleb_spec (a b : R) : Rleb a b = true <-> a <= b.
Proof. unfold Rleb. destruct (Rle_dec a b); split; intros; try easy. Qed.

Lemma is_int_IZR (z : Z) : is_int (IZR z) = true.
Proof. unfold is_int. rewrite ZfloorZ. now apply Reqb_true. Qed.

Lemma Zfloor_INR (n : nat) : Zfloor (INR n) = Z.of_nat n.
Proof. rewrite INR_IZR_INZ. apply ZfloorZ. Qed.

(** Decide the comparisons of a goal whose two sides [lra] can order. *)
Ltac decide_R :=
  repeat match goal with
  | |- context [Rleb ?a ?b] =>
      first [ rewrite (Rleb_true a b) by lra | rewrite (Rleb_false a b) by lra ]
  | |- context [Rltb ?a ?b] =>
      first [ rewrite (Rltb_true a b) by lra | rewrite (Rltb_false a b) by lra ]
  | |- context [Reqb ?a ?b] =>
      first [ rewrite (Reqb_true a b) by lra | rewrite (Reqb_false a b) by lra ]
  end.

(** Equality of results up to the value of the reals inside. *)
Ltac fin_eq :=
  repeat match goal with
  | |- Ret _ = Ret _ => f_equal
  | |- Some _ = Some _ => f_equal
  | |- _ :: _ = _ :: _ => f_equal
  | |- Build_Point _ _ = Build_Point _ _ => f_equal
  | |- Build_ComplexNumber _ _ = Build_ComplexNumber _ _ => f_equal
  | |- Fin _ = Fin _ => f_equal; lra
  end.

(** ** NaN absorbs *)

Lemma div_NaN_r (a : number) : (a / NaN)%num = NaN.
Proof. destruct a; reflexivity. Qed.

Lemma mul_NaN_l (a : number) : (NaN * a)%num = NaN.
Proof. destruct a; reflexivity. Qed.

(** ** The normalisation *)

Example normalize_ln : normalize "ln(x)" = "log10(x)"%string.
Proof. reflexivity. Qed.

Example normalize_log : normalize "log(x)" = "log10(x)"%string.
Proof. reflexivity. Qed.

Example normalize_identity : normalize "x" = "x"%string.
Proof. reflexivity. Qed.

Example normalize_mixed :
  normalize "sin(x) + aln(2) + log10(x) + 2*ln(x)"
  = "sin(x) + aln(2) + log10(x) + 2*log10(x)"%string.
Proof. reflexivity. Qed.

Lemma ln_10_gt_1 : 1 < ln 10.
Proof.
  rewrite <- (ln_exp 1) at 1.
  apply ln_increasing; [apply exp_pos |].
  pose proof exp_le_3. lra.
Qed.

Lemma log10_differs (x : R) : 0 < x -> x <> 1 -> ln x / ln 10 <> ln x.
Proof.
  intros Hx Hne Heq.
  pose proof ln_10_gt_1 as H10.
  assert (Hln : ln x <> 0).
  { intro H0. apply Hne. apply ln_inv; [assumption | lra |]. now rewrite ln_1. }
  apply Hln.
  assert (H : ln x / ln 10 * ln 10 = ln x) by (field; lra).
  rewrite Heq in H.
  destruct (Rmult_integral (ln x) (ln 10 - 1)) as [H0 | H0]; lra.
Qed.

(** C1 (the code departs from the claim).  Whatever mathjs is, provided it
    compiles ["log10(x)"] to the base-10 logarithm: [parseFunction "ln(x)"]
    evaluates, at every [x > 0], to the base-10 logarithm of [x], because the
    second replacement rewrites the [log(] the first one has just produced.
    That value differs from the natural logarithm at every [x] other than 1.
    [parseFunction "log(x)"] is the base-10 logarithm, as claimed. *)
Theorem parseFunction_ln_is_log10 :
  forall (node : Type) (compile : string -> option node)
         (node_evaluate : node -> scope -> option number) (n10 : node),
    compile "log10(x)"%string = Some n10 ->
    (forall x : R, 0 < x ->
       node_evaluate n10 (scope_of (Fin x)) = Some (Fin (ln x / ln 10))) ->
    forall x : R, 0 < x ->
      evaluate (parseFunction compile node_evaluate "ln(x)") (Fin x)
      = Fin (ln x / ln 10)
      /\ evaluate (parseFunction compile node_evaluate "log(x)") (Fin x)
         = Fin (ln x / ln 10)
      /\ (x <> 1 ->
          evaluate (parseFunction compile node_evaluate "ln(x)") (Fin x)
          <> Fin (ln x)).
Proof.
  intros node compile node_evaluate n10 Hc Hev x Hx.
  unfold parseFunction.
  rewrite normalize_ln, normalize_log, Hc. cbn [evaluate].
  rewrite (Hev x Hx).
  repeat split.
  intros Hne Heq. injection Heq as Heq.
  now apply (log10_differs x Hx Hne).
Qed.

Lemma parseFunction_ln_is_log10_witness :
  evaluate (parseFunction toy_compile toy_evaluate "ln(x)") (Fin 10)
  = Fin (ln 10 / ln 10)
  /\ evaluate (parseFunction toy_compile toy_evaluate "log(x)") (Fin 10)
     = Fin (ln 10 / ln 10)
  /\ (10 <> 1 ->
      evaluate (parseFunction toy_compile toy_evaluate "ln(x)") (Fin 10)
      <> Fin (ln 10)).
Proof.
  apply (@parseFunction_ln_is_log10 toy_node toy_compile toy_evaluate TLog10).
  - reflexivity.
  - intros x Hx. cbn. now rewrite (Rltb_true 0 x Hx).
  - lra.
Defined.

(** C2.  When compiling the normalised expression throws, [parseFunction]
    returns (it has no throwing outcome) the record whose expression is
    ["x"] and whose [evaluate] is the identity.  When mathjs compiles ["x"]
    to the variable, that record has the same expression and the same
    values as [parseFunction "x"]. *)
Theorem parseFunction_failure_is_identity :
  forall (node : Type) (compile : string -> option node)
         (node_evaluate : node -> scope -> option number)
         (e : string) (nx : node),
    compile (normalize e) = None ->
    compile "x"%string = Some nx ->
    (forall v : number, node_evaluate nx (scope_of v) = Some v) ->
    parseFunction compile node_evaluate e
    = {| expression := "x"; evaluate := fun x : number => x |}
    /\ (forall v : number,
          evaluate (parseFunction compile node_evaluate e) v = v)
    /\ expression (parseFunction compile node_evaluate e)
       = expression (parseFunction compile node_evaluate "x")
    /\ (forall v : number,
          evaluate (parseFunction compile node_evaluate e) v
          = evaluate (parseFunction compile node_evaluate "x") v).
Proof.
  intros node compile node_evaluate e nx Hfail Hx Hev.
  unfold parseFunction. rewrite Hfail, normalize_identity, Hx.
  cbn [expression evaluate].
  repeat split; try reflexivity.
  intros v. now rewrite Hev.
Qed.

Lemma parseFunction_failure_is_identity_witness :
  parseFunction toy_compile toy_evaluate "2 +* ("
  = {| expression := "x"; evaluate := fun x : number => x |}
  /\ (forall v : number,
        evaluate (parseFunction toy_compile toy_evaluate "2 +* (") v = v)
  /\ expression (parseFunction toy_compile toy_evaluate "2 +* (")
     = expression (parseFunction toy_compile toy_evaluate "x")
  /\ (forall v : number,
        evaluate (parseFunction toy_compile toy_evaluate "2 +* (") v
        = evaluate (parseFunction toy_compile toy_evaluate "x") v).
Proof.
  apply (@parseFunction_failure_is_identity toy_node toy_compile toy_evaluate
           "2 +* (" TVar).
  - reflexivity.
  - reflexivity.
  - intros v. reflexivity.
Defined.

(** ** The distributions on concrete arguments *)

Example factorial_3 : MathUtils.factorial (Fin 3) = Ret (Fin 6).
Proof.
  unfold MathUtils.factorial, lt, seq_num. decide_R. cbn [orb].
  assert (Hupto : upto 2 (Fin 3) = Some [2; 3]%Z)
    by (unfold upto; rewrite (ZfloorZ 3); reflexivity).
  unfold for_upto. rewrite Hupto. cbn [foldM bind of_Z mul].
  f_equal. f_equal. lra.
Qed.

(** [factorial(NaN)] is 1: every guard is false and the loop does not
    run. *)
Example factorial_NaN : MathUtils.factorial NaN = Ret (Fin 1).
Proof. reflexivity. Qed.

Example factorial_Infinity : MathUtils.factorial PInf = Diverges.
Proof. reflexivity. Qed.

Example binomialPMF_1_2_half :
  MathUtils.binomialPMF (Fin 1) (Fin 2) (Fin (1 / 2)) = Ret (Fin (1 / 2)).
Proof.
  unfold MathUtils.binomialPMF, MathUtils.binomialCoefficient, gt, lt, seq_num.
  decide_R. cbn [orb].
  assert (Hupto : upto 1 (Fin 1) = Some [1]%Z)
    by (unfold upto; rewrite (ZfloorZ 1); reflexivity).
  unfold for_upto. rewrite Hupto. cbn [foldM bind of_Z sub neg add mul div].
  decide_R. cbn [bind].
  unfold Math.pow. decide_R.
  replace (2 + - (1)) with 1 by lra. rewrite (is_int_IZR 1), (ZfloorZ 1).
  cbn [mul powerRZ]. change (Pos.to_nat 1) with 1%nat. cbn [pow].
  f_equal. f_equal. lra.
Qed.

(** ** Out-of-support arguments of the distributions *)

Lemma pow_finite_int (b e : R) (k : Z) :
  e = IZR k -> b <> 0 \/ (0 <= k)%Z ->
  exists r : R, Math.pow (Fin b) (Fin e) = Fin r.
Proof.
  intros -> H. unfold Math.pow.
  destruct (Reqb (IZR k) 0) eqn:He; [now exists 1 |].
  destruct (Reqb b 0) eqn:Hb.
  - unfold Reqb in *.
    destruct (Req_dec_T b 0) as [Hb0 | ]; [| discriminate].
    destruct (Req_dec_T (IZR k) 0) as [| He0]; [discriminate |].
    destruct H as [H | H]; [contradiction |].
    apply IZR_le in H.
    rewrite Rltb_true by lra. now exists 0.
  - rewrite is_int_IZR. eexists; reflexivity.
Qed.

(** Inside the open unit interval (more generally away from the base that
    makes a power infinite) an out-of-support [k] does give 0. *)
Lemma binomialPMF_outside_support (n : nat) (k : Z) (p : R) :
  (k < 0 \/ Z.of_nat n < k)%Z ->
  ((k < 0)%Z -> p <> 0) ->
  ((Z.of_nat n < k)%Z -> p <> 1) ->
  MathUtils.binomialPMF (of_Z k) (of_nat n) (Fin p) = Ret (Fin 0).
Proof.
  intros Hk Hp0 Hp1.
  unfold MathUtils.binomialPMF, MathUtils.binomialCoefficient, of_Z, of_nat.
  assert (Hguard : ((Fin (IZR k) <? Fin 0) || (Fin (IZR k) >? Fin (INR n)))%num
                   = true).
  { unfold gt, lt. rewrite INR_IZR_INZ. apply orb_true_iff.
    destruct Hk as [Hk | Hk]; [left | right]; apply Rltb_true;
      now apply IZR_lt. }
  rewrite Hguard. cbn [bind].
  destruct (pow_finite_int p (IZR k) k eq_refl) as [r1 Hr1].
  { destruct (Z_lt_le_dec k 0) as [Hneg | Hnn];
      [left; auto | right; exact Hnn]. }
  destruct (pow_finite_int (1 + - p) (INR n + - IZR k) (Z.of_nat n - k))
    as [r2 Hr2].
  { rewrite INR_IZR_INZ, minus_IZR. ring. }
  { destruct (Z_lt_le_dec (Z.of_nat n) k) as [Hgt | Hle].
    - left. specialize (Hp1 Hgt). lra.
    - right. lia. }
  unfold sub, neg, add. rewrite Hr1, Hr2.
  cbn [mul]. f_equal. f_equal. ring.
Qed.

(** C6 (the code departs from the claim).  [binomialCoefficient] returns 0
    outside the support, but [binomialPMF] multiplies that 0 by the two
    powers, and a power of the base 0 with a negative exponent is
    [Infinity]: with [p = 0] and [k = -1], and with [p = 1] and [k = 6 > n = 5],
    the result is NaN. *)
Theorem binomialPMF_outside_support_NaN :
  MathUtils.binomialPMF (Fin (-1)) (Fin 5) (Fin 0) = Ret NaN
  /\ MathUtils.binomialPMF (Fin 6) (Fin 5) (Fin 1) = Ret NaN.
Proof.
  split.
  - unfold MathUtils.binomialPMF, MathUtils.binomialCoefficient.
    unfold gt, lt. decide_R. cbn [orb bind].
    unfold Math.pow at 1. decide_R.
    unfold mul at 2. unfold signed_inf. decide_R.
    now rewrite mul_NaN_l.
  - unfold MathUtils.binomialPMF, MathUtils.binomialCoefficient.
    unfold gt, lt. decide_R. cbn [orb bind].
    unfold sub, neg, add.
    unfold Math.pow at 2. decide_R.
    unfold Math.pow. decide_R. rewrite (is_int_IZR 6).
    cbn [mul]. unfold signed_inf. decide_R. reflexivity.
Qed.

(** C10.  For every [lambda] (finite or not) and every [k] with [k < 0]
    (a negative real or [-Infinity]): [factorial k] is NaN, and
    [poissonPMF k lambda], a quotient by that NaN, is NaN, not 0. *)
Theorem poissonPMF_negative_is_NaN :
  forall k lambda : number,
    (k <? Fin 0)%num = true ->
    MathUtils.factorial k = Ret NaN
    /\ MathUtils.poissonPMF k lambda = Ret NaN
    /\ MathUtils.poissonPMF k lambda <> Ret (Fin 0).
Proof.
  intros k lambda Hk.
  assert (Hf : MathUtils.factorial k = Ret NaN).
  { unfold MathUtils.factorial. now rewrite Hk. }
  assert (Hp : MathUtils.poissonPMF k lambda = Ret NaN).
  { unfold MathUtils.poissonPMF. rewrite Hf. cbn [bind].
    now rewrite div_NaN_r. }
  repeat split; try assumption.
  rewrite Hp. discriminate.
Qed.

Lemma poissonPMF_negative_is_NaN_witness :
  MathUtils.factorial (Fin (-1)) = Ret NaN
  /\ MathUtils.poissonPMF (Fin (-1)) (Fin 2) = Ret NaN
  /\ MathUtils.poissonPMF (Fin (-1)) (Fin 2) <> Ret (Fin 0).
Proof.
  apply (poissonPMF_negative_is_NaN (Fin (-1)) (Fin 2)).
  unfold lt. apply Rltb_true. lra.
Defined.

(** ** The sampling loop *)

Section SamplingLoop.

Variable f : jsfun.
Variables lo hi st : R.
Hypothesis st_pos : 0 < st.


(** From [x], with [m] grid values left below or at [hi], the loop appends
    what each of them contributes and stops, whatever fuel above [m] it is
    given. *)
Lemma sample_loop_grid (m : nat) :
  forall (fuel : nat) (x : R) (points : list Point),
    (m < fuel)%nat ->
    hi < x + INR m * st ->
    ((0 < m)%nat -> x + (INR m - 1) * st <= hi) ->
    MathUtils.sample_loop fuel f (finite_range lo hi st) (Fin x) points
    = Some (points ++ flat_map (sample f) (grid x st m)).
Proof.
  induction m as [| m IH]; intros fuel x points Hfuel Hup Hlow.
  - destruct fuel as [| fuel]; [lia |].
    cbn in Hup. cbn [MathUtils.sample_loop finite_range max le].
    rewrite Rleb_false by lra.
    cbn. now rewrite app_nil_r.
  - destruct fuel as [| fuel]; [lia |].
    rewrite S_INR in Hup, Hlow.
    assert (Hm : 0 <= INR m) by apply pos_INR.
    assert (Hx : x <= hi) by (specialize (Hlow ltac:(lia)); nra).
    cbn [MathUtils.sample_loop finite_range max step le add].
    rewrite Rleb_true by exact Hx.
    cbn [grid flat_map]. unfold sample at 1.
    assert (Hrec : forall pts,
               MathUtils.sample_loop fuel f (finite_range lo hi st)
                 (Fin (x + st)) pts
               = Some (pts ++ flat_map (sample f) (grid (x + st) st m))).
    { intros pts. apply IH; [lia | lra |].
      intros Hpos. specialize (Hlow ltac:(lia)). lra. }
    destruct (f (Fin x)) as [y |].
    + destruct y; cbn [isFinite isNaN andb negb]; rewrite Hrec;
        try reflexivity.
      now rewrite <- app_assoc.
    + now rewrite Hrec.
Qed.

(** The number of grid values in [[lo, hi]]. *)
Lemma floor_count_bounds :
  let m := Z.to_nat (floor_count lo hi st) in
  hi < lo + INR m * st /\ ((0 < m)%nat -> lo + (INR m - 1) * st <= hi).
Proof.
  intros m. subst m. unfold floor_count.
  pose proof (Zfloor_bound ((hi - lo) / st)) as [Hlb Hub].
  set (q := Zfloor ((hi - lo) / st)) in *.
  assert (Hq : (hi - lo) / st * st = hi - lo) by (field; lra).
  destruct (Z_lt_le_dec (q + 1) 1) as [Hneg | Hpos].
  - replace (Z.to_nat (q + 1)) with 0%nat by lia. cbn [INR].
    split; [| lia].
    assert (IZR q + 1 <= 0).
    { rewrite <- (plus_IZR q 1). apply IZR_le. lia. }
    nra.
  - assert (HI : INR (Z.to_nat (q + 1)) = IZR q + 1).
    { rewrite INR_IZR_INZ, Z2Nat.id by lia. now rewrite plus_IZR. }
    rewrite HI. split; [nra | intros _; nra].
Qed.

Lemma generateFunctionPoints_grid :
  forall fuel : nat,
    (Z.to_nat (floor_count lo hi st) < fuel)%nat ->
    MathUtils.generateFunctionPoints fuel f (finite_range lo hi st)
    = Some (flat_map (sample f)
              (grid lo st (Z.to_nat (floor_count lo hi st)))).
Proof.
  intros fuel Hfuel. unfold MathUtils.generateFunctionPoints.
  destruct floor_count_bounds as [Hup Hlow].
  change (min (finite_range lo hi st)) with (Fin lo).
  now rewrite (sample_loop_grid _ fuel lo [] Hfuel Hup Hlow).
Qed.

End SamplingLoop.

Lemma grid_length (lo st : R) (m : nat) : List.length (grid lo st m) = m.
Proof.
  revert lo. induction m as [| m IH]; intros lo; cbn; [| rewrite IH];
    reflexivity.
Qed.

Lemma grid_nth (m : nat) :
  forall (lo st : R) (i : nat),
    (i < m)%nat -> nth i (grid lo st m) NaN = Fin (lo + INR i * st).
Proof.
  induction m as [| m IH]; intros lo st i Hi; [lia |].
  destruct i as [| i].
  - cbn. f_equal. ring.
  - cbn [grid nth]. rewrite IH by lia. rewrite S_INR. f_equal. ring.
Qed.

Lemma sample_grid_finite (f : jsfun) (m : nat) :
  (forall v : R, exists r : R, f (Fin v) = Some (Fin r)) ->
  forall lo st : R,
    List.length (flat_map (sample f) (grid lo st m)) = m
    /\ map x (flat_map (sample f) (grid lo st m)) = grid lo st m.
Proof.
  intros Hf. induction m as [| m IH]; intros lo st; [split; reflexivity |].
  cbn [grid flat_map]. destruct (IH (lo + st) st) as [IHlen IHmap].
  unfold sample at 1 3. destruct (Hf lo) as [r ->].
  cbn [isFinite app List.length map x]. now rewrite IHlen, IHmap.
Qed.

(** The quotient of two integers, rounded down, is their integer
    quotient. *)
Lemma Zfloor_div_IZR (p q : Z) :
  (0 < q)%Z -> Zfloor (IZR p / IZR q) = (p / q)%Z.
Proof.
  intros Hq. apply Zfloor_eq.
  assert (Hqr : 0 < IZR q) by now apply IZR_lt.
  pose proof (Z.div_mod p q ltac:(lia)) as Hdm.
  pose proof (Z.mod_pos_bound p q Hq) as [Hm0 Hmq].
  assert (Hp : IZR p = IZR q * IZR (p / q) + IZR (p mod q)).
  { rewrite <- mult_IZR, <- plus_IZR. now f_equal. }
  assert (Hr0 : 0 <= IZR (p mod q)) by now apply IZR_le.
  assert (Hrq : IZR (p mod q) < IZR q) by now apply IZR_lt.
  split.
  - apply (Rmult_le_reg_r (IZR q)); [assumption |].
    replace (IZR p / IZR q * IZR q) with (IZR p) by (field; lra). nra.
  - apply (Rmult_lt_reg_r (IZR q)); [assumption |].
    replace (IZR p / IZR q * IZR q) with (IZR p) by (field; lra). nra.
Qed.

(** C3, as amended.  The range is taken on a grid that binary64 holds
    exactly: [min], [max] and [step] are the integer multiples [a * u],
    [b * u] and [s * u] of a power of two [u = 2^e], with
    [-2^53 <= a <= b], [0 < s <= 2^53], [b + s <= 2^53] and
    [-1074 <= e <= 970], so that the three are binary64 values, every value
    the loop visits and the one it stops at is such a multiple of at most
    53 bits, and no addition [x += step] rounds (the integer ranges are the
    case [e = 0]).  For a function that is finite at
    every finite argument the sampling loop then ends (any fuel above the
    count suffices) and returns exactly [floor((max - min) / step) + 1]
    points, which is [(b - a) / s + 1] in integer division, and their [x]
    are the values [min, min + step, ...] in order. *)
Theorem generateFunctionPoints_count :
  forall (f : jsfun) (a b s e : Z) (lo hi st : R),
    lo = IZR a * powerRZ 2 e ->
    hi = IZR b * powerRZ 2 e ->
    st = IZR s * powerRZ 2 e ->
    (-1074 <= e <= 970)%Z ->
    (- 2 ^ 53 <= a)%Z -> (a <= b)%Z -> (0 < s <= 2 ^ 53)%Z ->
    (b + s <= 2 ^ 53)%Z ->
    (forall v : R, exists r : R, f (Fin v) = Some (Fin r)) ->
    forall fuel : nat,
      (Z.to_nat (floor_count lo hi st) < fuel)%nat ->
      exists points : list Point,
        MathUtils.generateFunctionPoints fuel f (finite_range lo hi st)
        = Some points
        /\ Z.of_nat (List.length points) = floor_count lo hi st
        /\ floor_count lo hi st = ((b - a) / s + 1)%Z
        /\ map x points = grid lo st (List.length points).
Proof.
  intros f a b s e lo hi st Hlo Hhi Hstep He Ha Hab [Hs Hs53] Hbs Hf fuel
    Hfuel.
  assert (Hu : 0 < powerRZ 2 e) by (apply powerRZ_lt; lra).
  assert (Hsr : 0 < IZR s) by now apply IZR_lt.
  assert (Hst : 0 < st) by (subst st; now apply Rmult_lt_0_compat).
  assert (Hcount : floor_count lo hi st = ((b - a) / s + 1)%Z).
  { unfold floor_count. f_equal. rewrite <- (Zfloor_div_IZR (b - a) s Hs).
    f_equal. subst lo hi st. rewrite minus_IZR. field. lra. }
  eexists. split; [| split; [| split]].
  - now apply generateFunctionPoints_grid.
  - destruct (sample_grid_finite f (Z.to_nat (floor_count lo hi st)) Hf lo st)
      as [Hlen _].
    rewrite Hlen. apply Z2Nat.id. rewrite Hcount.
    assert (0 <= (b - a) / s)%Z; [| lia].
    apply Z.div_pos; lia.
  - exact Hcount.
  - destruct (sample_grid_finite f (Z.to_nat (floor_count lo hi st)) Hf lo st)
      as [Hlen Hmap].
    now rewrite Hlen.
Qed.

Lemma floor_count_0_5_2 : floor_count 0 5 2 = 3%Z.
Proof. unfold floor_count. rewrite (Zfloor_eq 2); [reflexivity | lra]. Qed.

Lemma generateFunctionPoints_count_witness :
  exists points : list Point,
    MathUtils.generateFunctionPoints 4 (fun v => Some v) (finite_range 0 5 2)
    = Some points
    /\ Z.of_nat (List.length points) = floor_count 0 5 2
    /\ floor_count 0 5 2 = ((5 - 0) / 2 + 1)%Z
    /\ map x points = grid 0 2 (List.length points).
Proof.
  apply (generateFunctionPoints_count (fun v => Some v) 0 5 2 0 0 5 2).
  - cbn [powerRZ]. lra.
  - cbn [powerRZ]. lra.
  - cbn [powerRZ]. lra.
  - lia.
  - lia.
  - lia.
  - lia.
  - lia.
  - intros v. now exists v.
  - rewrite floor_count_0_5_2. cbn. lia.
Defined.

(** C3 as stated fails: on the range [{min: 0, max: 5, step: 2}] the loop
    visits 0, 2 and 4, three values, while [ceil((5 - 0) / 2) + 1] is 4. *)
Lemma generateFunctionPoints_count_not_ceil :
  MathUtils.generateFunctionPoints 4 (fun v => Some v)
    {| min := Fin 0; max := Fin 5; step := Fin 2 |}
  = Some [ {| x := Fin 0; y := Fin 0 |};
           {| x := Fin (0 + 2); y := Fin (0 + 2) |};
           {| x := Fin (0 + 2 + 2); y := Fin (0 + 2 + 2) |} ]
  /\ ceil_count 0 5 2 = 4%Z
  /\ ~ (forall (fuel : nat) (points : list Point),
          MathUtils.generateFunctionPoints fuel (fun v => Some v)
            {| min := Fin 0; max := Fin 5; step := Fin 2 |} = Some points ->
          Z.of_nat (List.length points) = ceil_count 0 5 2).
Proof.
  assert (Hrun : MathUtils.generateFunctionPoints 4 (fun v => Some v)
                   {| min := Fin 0; max := Fin 5; step := Fin 2 |}
                 = Some [ {| x := Fin 0; y := Fin 0 |};
                          {| x := Fin (0 + 2); y := Fin (0 + 2) |};
                          {| x := Fin (0 + 2 + 2); y := Fin (0 + 2 + 2) |} ]).
  { unfold MathUtils.generateFunctionPoints.
    cbn [MathUtils.sample_loop min max step le add isFinite isNaN andb negb
         app].
    decide_R. reflexivity. }
  assert (Hceil : ceil_count 0 5 2 = 4%Z).
  { unfold ceil_count. rewrite (Zceil_eq 3); [reflexivity | lra]. }
  repeat split; try assumption.
  intros Hclaim. specialize (Hclaim _ _ Hrun).
  rewrite Hceil in Hclaim. cbn in Hclaim. discriminate.
Qed.




(** A function with a pole: the value at 0 is [Infinity] and leaves a gap. *)
Example reciprocal_gap :
  MathUtils.generateFunctionPoints 4 (fun v => Some (Fin 1 / v)%num)
    (finite_range (-1) 1 1)
  = Some [ {| x := Fin (-1); y := Fin (-1) |}; {| x := Fin 1; y := Fin 1 |} ].
Proof.
  unfold MathUtils.generateFunctionPoints, finite_range.
  cbn [MathUtils.sample_loop min max step le add div].
  decide_R. unfold signed_inf. decide_R.
  cbn [isFinite isNaN andb negb app].
  fin_eq.
Qed.

(** ** Loops in the outcome monad *)

Lemma foldM_app {A I : Type} (body : I -> A -> outcome A) (xs ys : list I) :
  forall acc : A,
    foldM body (xs ++ ys) acc = bind (foldM body xs acc) (foldM body ys).
Proof.
  induction xs as [| i xs IH]; intros acc; [reflexivity |].
  cbn [app foldM]. destruct (body i acc) as [acc' | |]; cbn [bind];
    [apply IH | reflexivity | reflexivity].
Qed.

Lemma upto_nat (a : Z) (k : nat) :
  upto a (Fin (INR k))
  = Some (map (fun j => (a + Z.of_nat j)%Z)
              (seq 0 (Z.to_nat (Z.of_nat k - a + 1)))).
Proof. unfold upto. now rewrite Zfloor_INR. Qed.

(** ** The binomial distribution *)

Lemma C_zero (n : nat) : C n 0 = 1.
Proof.
  unfold C. rewrite Nat.sub_0_r. cbn [fact INR].
  field. apply INR_fact_neq_0.
Qed.

Lemma C_diag (n : nat) : C n n = 1.
Proof.
  unfold C. rewrite Nat.sub_diag. cbn [fact INR].
  field. apply INR_fact_neq_0.
Qed.

(** One step of the multiplicative computation of the coefficient. *)
Lemma C_step (n m : nat) :
  (S m <= n)%nat ->
  C n (S m) = C n m * (INR n + - INR (S m) + 1) / INR (S m).
Proof.
  intros Hle. unfold C.
  replace (n - m)%nat with (S (n - S m)) by lia.
  rewrite !fact_simpl, !mult_INR.
  replace (INR n + - INR (S m) + 1) with (INR (S (n - S m))).
  2:{ rewrite S_INR, minus_INR by lia. ring. }
  field. repeat split; try apply INR_fact_neq_0; apply not_0_INR; lia.
Qed.

Lemma IZR_succ_nat (j : nat) : IZR (1 + Z.of_nat j) = INR (S j).
Proof. rewrite INR_IZR_INZ. f_equal. lia. Qed.

(** The loop of [binomialCoefficient], run for the counter values
    [1 .. m]. *)
Lemma binomialCoefficient_loop (n m : nat) :
  (m <= n)%nat ->
  foldM (fun i result =>
           Ret (result * (Fin (INR n) - of_Z i + Fin 1) / of_Z i)%num)
        (map (fun j => (1 + Z.of_nat j)%Z) (seq 0 m)) (Fin 1)
  = Ret (Fin (C n m)).
Proof.
  induction m as [| m IH]; intros Hle.
  - cbn. now rewrite C_zero.
  - rewrite seq_S, map_app, foldM_app, IH by lia.
    cbn [bind map foldM Nat.add]. unfold of_Z.
    rewrite IZR_succ_nat. cbn [sub neg add mul div].
    rewrite Reqb_false by (apply not_0_INR; lia).
    now rewrite <- C_step by lia.
Qed.

Lemma binomialCoefficient_C (n k : nat) :
  (k <= n)%nat ->
  MathUtils.binomialCoefficient (of_nat n) (of_nat k) = Ret (Fin (C n k)).
Proof.
  intros Hle. unfold MathUtils.binomialCoefficient, of_nat, gt, lt, seq_num.
  rewrite (Rltb_false (INR k) 0) by apply pos_INR.
  rewrite (Rltb_false (INR n) (INR k)) by now apply le_INR.
  cbn [orb].
  destruct (Nat.eq_dec k 0) as [-> | Hk0].
  { rewrite Reqb_true by reflexivity. cbn [orb]. now rewrite C_zero. }
  rewrite (Reqb_false (INR k) 0) by now apply not_0_INR.
  destruct (Nat.eq_dec k n) as [-> | Hkn].
  { rewrite Reqb_true by reflexivity. cbn [orb]. now rewrite C_diag. }
  rewrite (Reqb_false (INR k) (INR n)) by now apply not_INR.
  cbn [orb]. unfold for_upto. rewrite upto_nat.
  replace (Z.to_nat (Z.of_nat k - 1 + 1)) with k by lia.
  now apply binomialCoefficient_loop.
Qed.

(** [Math.pow] with a natural exponent is the iterated product. *)
Lemma pow_nat (p : R) (k : nat) : Math.pow (Fin p) (Fin (INR k)) = Fin (p ^ k).
Proof.
  unfold Math.pow.
  destruct (Nat.eq_dec k 0) as [-> | Hk].
  { now rewrite Reqb_true by reflexivity. }
  rewrite (Reqb_false (INR k) 0) by now apply not_0_INR.
  destruct (Req_dec_T p 0) as [-> | Hp].
  - rewrite Reqb_true by reflexivity.
    rewrite Rltb_true by (apply lt_0_INR; lia).
    now rewrite pow_i by lia.
  - rewrite Reqb_false by assumption.
    rewrite INR_IZR_INZ, is_int_IZR, ZfloorZ.
    now rewrite <- pow_powerRZ.
Qed.

Lemma binomialPMF_in_support (n k : nat) (p : R) :
  (k <= n)%nat ->
  MathUtils.binomialPMF (of_nat k) (of_nat n) (Fin p)
  = Ret (Fin (C n k * p ^ k * (1 - p) ^ (n - k))).
Proof.
  intros Hle. unfold MathUtils.binomialPMF.
  rewrite binomialCoefficient_C by assumption. cbn [bind].
  unfold of_nat, sub, neg, add.
  replace (INR n + - INR k) with (INR (n - k))
    by (rewrite minus_INR by lia; ring).
  rewrite !pow_nat. cbn [mul]. reflexivity.
Qed.

(** The running total after the terms [0 .. m]. *)
Lemma binomial_partial_total (n m : nat) (p : R) :
  (m <= n)%nat ->
  foldM (fun k acc =>
           v <- MathUtils.binomialPMF (of_nat k) (of_nat n) (Fin p) ;;
           Ret (acc + v)%num)
        (seq 0 (S m)) (Fin 0)
  = Ret (Fin (sum_f_R0 (fun k => C n k * p ^ k * (1 - p) ^ (n - k)) m)).
Proof.
  induction m as [| m IH]; intros Hle.
  - cbn [seq foldM]. rewrite binomialPMF_in_support by lia.
    cbn [bind add sum_f_R0]. now rewrite Rplus_0_l.
  - rewrite seq_S, foldM_app, IH by lia.
    cbn [bind foldM Nat.add]. rewrite binomialPMF_in_support by lia.
    reflexivity.
Qed.

Lemma binomial_total_one (n : nat) (p : R) :
  binomial_total n (Fin p) = Ret (Fin 1).
Proof.
  unfold binomial_total. rewrite binomial_partial_total by lia.
  rewrite <- binomial. replace (p + (1 - p)) with 1 by ring.
  now rewrite pow1.
Qed.

(** C5.  In exact arithmetic, for [1 <= n <= 50] and [0 < p < 1], the
    values [binomialPMF(k, n, p)] for [k = 0, ..., n], added up in that
    order, make exactly 1. *)
Theorem binomialPMF_sums_to_one :
  forall (n : nat) (p : R),
    (1 <= n <= 50)%nat -> 0 < p < 1 ->
    binomial_total n (Fin p) = Ret (Fin 1).
Proof. intros n p _ _. apply binomial_total_one. Qed.

Lemma binomialPMF_sums_to_one_witness :
  binomial_total 3 (Fin (1 / 2)) = Ret (Fin 1).
Proof.
  apply (binomialPMF_sums_to_one 3 (1 / 2)).
  - lia.
  - lra.
Defined.

(** ** The discrete Fourier transform of a constant signal *)

Lemma fold_left_snoc_map {A B : Type} (g : A -> B) (l : list A) :
  forall acc : list B,
    fold_left (fun acc a => acc ++ [g a]) l acc = acc ++ map g l.
Proof.
  induction l as [| a l IH]; intros acc; cbn [fold_left map].
  - now rewrite app_nil_r.
  - rewrite IH, <- app_assoc. reflexivity.
Qed.

Lemma dft_map (signal : list number) :
  MathUtils.dft signal
  = map (MathUtils.dft_bin signal) (below (List.length signal)).
Proof. unfold MathUtils.dft. now rewrite fold_left_snoc_map. Qed.

Lemma array_get_repeat (c : number) (N n : nat) :
  (n < N)%nat -> array_get (repeat c N) n = c.
Proof.
  unfold array_get. revert n. induction N as [| N IH]; intros n Hn; [lia |].
  destruct n as [| n]; cbn; [reflexivity | apply IH; lia].
Qed.

Lemma dft_bin_constant (c : R) (N k : nat) :
  (0 < N)%nat ->
  MathUtils.dft_bin (repeat (Fin c) N) k
  = {| real := Fin (c * cos_sum (bin_angle N k) N);
       imag := Fin (- (c * sin_sum (bin_angle N k) N)) |}.
Proof.
  intros HN. unfold MathUtils.dft_bin. rewrite repeat_length.
  set (theta := bin_angle N k).
  assert (HN0 : INR N <> 0) by (apply not_0_INR; lia).
  assert (H : forall m : nat,
             (m <= N)%nat ->
             fold_left
               (fun acc n =>
                  let angle :=
                    ((Fin 2 * Math.PI * of_nat k * of_nat n) / of_nat N)%num in
                  {| real := (real acc
                              + array_get (repeat (Fin c) N) n
                                * Math.cos angle)%num;
                     imag := (imag acc
                              - array_get (repeat (Fin c) N) n
                                * Math.sin angle)%num |})
               (below m) {| real := Fin 0; imag := Fin 0 |}
             = {| real := Fin (c * cos_sum theta m);
                  imag := Fin (- (c * sin_sum theta m)) |}).
  { induction m as [| m IH]; intros Hm.
    - cbn. f_equal; f_equal; ring.
    - unfold below in *. rewrite seq_S, fold_left_app, IH by lia.
      cbn [fold_left Nat.add real imag].
      rewrite array_get_repeat by lia.
      unfold Math.PI, of_nat. cbn [mul div].
      rewrite Reqb_false by exact HN0.
      cbn [Math.cos Math.sin mul add sub neg cos_sum sin_sum].
      replace (2 * PI * INR k * INR m / INR N) with (theta * INR m)
        by (unfold theta, bin_angle; field; exact HN0).
      f_equal; f_equal; ring. }
  now apply H.
Qed.

(** The telescoping identities behind the sum of the roots of unity. *)
Lemma cos_sum_telescope (theta : R) (m : nat) :
  2 * sin (theta / 2) * cos_sum theta m
  = sin (theta * INR m - theta / 2) + sin (theta / 2).
Proof.
  induction m as [| m IH].
  - cbn [cos_sum INR].
    replace (theta * 0 - theta / 2) with (- (theta / 2)) by ring.
    rewrite sin_neg. ring.
  - cbn [cos_sum]. rewrite Rmult_plus_distr_l, IH, S_INR.
    replace (theta * (INR m + 1) - theta / 2)
      with (theta * INR m + theta / 2) by field.
    rewrite sin_minus, sin_plus. ring.
Qed.

Lemma sin_sum_telescope (theta : R) (m : nat) :
  2 * sin (theta / 2) * sin_sum theta m
  = cos (theta / 2) - cos (theta * INR m - theta / 2).
Proof.
  induction m as [| m IH].
  - cbn [sin_sum INR].
    replace (theta * 0 - theta / 2) with (- (theta / 2)) by ring.
    rewrite cos_neg. ring.
  - cbn [sin_sum]. rewrite Rmult_plus_distr_l, IH, S_INR.
    replace (theta * (INR m + 1) - theta / 2)
      with (theta * INR m + theta / 2) by field.
    rewrite cos_minus, cos_plus. ring.
Qed.

Section RootsOfUnity.

Variables N k : nat.
Hypothesis k_pos : (0 < k)%nat.
Hypothesis k_lt_N : (k < N)%nat.

Lemma half_angle_sin_pos : 0 < sin (bin_angle N k / 2).
Proof.
  assert (HN : 0 < INR N) by (apply lt_0_INR; lia).
  assert (Hk : 0 < INR k) by (apply lt_0_INR; lia).
  assert (HkN : INR k < INR N) by (apply lt_INR; lia).
  pose proof PI_RGT_0 as Hpi.
  assert (Heq : bin_angle N k / 2 = PI * (INR k / INR N))
    by (unfold bin_angle; field; lra).
  assert (Hq0 : 0 < INR k / INR N) by (apply Rdiv_lt_0_compat; assumption).
  assert (Hq1 : INR k / INR N < 1).
  { apply (Rmult_lt_reg_r (INR N)); [assumption |].
    replace (INR k / INR N * INR N) with (INR k) by (field; lra). lra. }
  rewrite Heq. apply sin_gt_0; nra.
Qed.

Lemma full_turn :
  bin_angle N k * INR N - bin_angle N k / 2
  = - (bin_angle N k / 2) + 2 * INR k * PI.
Proof.
  assert (HN : 0 < INR N) by (apply lt_0_INR; lia).
  unfold bin_angle. field. lra.
Qed.

Lemma cos_sum_roots : cos_sum (bin_angle N k) N = 0.
Proof.
  pose proof half_angle_sin_pos as Hs.
  pose proof (cos_sum_telescope (bin_angle N k) N) as H.
  rewrite full_turn, sin_period, sin_neg in H.
  destruct (Rmult_integral (2 * sin (bin_angle N k / 2))
              (cos_sum (bin_angle N k) N)) as [H0 | H0]; lra.
Qed.

Lemma sin_sum_roots : sin_sum (bin_angle N k) N = 0.
Proof.
  pose proof half_angle_sin_pos as Hs.
  pose proof (sin_sum_telescope (bin_angle N k) N) as H.
  rewrite full_turn, cos_period, cos_neg in H.
  destruct (Rmult_integral (2 * sin (bin_angle N k / 2))
              (sin_sum (bin_angle N k) N)) as [H0 | H0]; lra.
Qed.

End RootsOfUnity.

Lemma cos_sum_zero_angle (m : nat) : cos_sum 0 m = INR m.
Proof.
  induction m as [| m IH]; [reflexivity |].
  cbn [cos_sum]. rewrite IH, Rmult_0_l, cos_0, S_INR. reflexivity.
Qed.

Lemma sin_sum_zero_angle (m : nat) : sin_sum 0 m = 0.
Proof.
  induction m as [| m IH]; [reflexivity |].
  cbn [sin_sum]. rewrite IH, Rmult_0_l, sin_0. ring.
Qed.

Lemma map_constant {A B : Type} (g : A -> B) (v : B) (l : list A) :
  (forall a : A, In a l -> g a = v) -> map g l = repeat v (List.length l).
Proof.
  induction l as [| a l IH]; intros H; [reflexivity |].
  cbn [map List.length repeat]. rewrite (H a) by now left.
  rewrite IH; [reflexivity |]. intros b Hb. apply H. now right.
Qed.

(** C8.  On the constant signal of length [N >= 1] and value [c], [dft]
    returns [N] bins; bin 0 is [(N * c, 0)] and every other bin is
    [(0, 0)]. *)
Theorem dft_constant_signal :
  forall (N : nat) (c : R),
    (1 <= N)%nat ->
    MathUtils.dft (repeat (Fin c) N)
    = {| real := Fin (INR N * c); imag := Fin 0 |}
      :: repeat {| real := Fin 0; imag := Fin 0 |} (N - 1)
    /\ List.length (MathUtils.dft (repeat (Fin c) N)) = N.
Proof.
  intros N c HN.
  assert (Hbins : MathUtils.dft (repeat (Fin c) N)
                  = {| real := Fin (INR N * c); imag := Fin 0 |}
                    :: repeat {| real := Fin 0; imag := Fin 0 |} (N - 1)).
  { rewrite dft_map, repeat_length. unfold below.
    destruct N as [| N]; [lia |].
    cbn [seq map Nat.sub]. rewrite Nat.sub_0_r. f_equal.
    - rewrite dft_bin_constant by lia.
      replace (bin_angle (S N) 0) with 0.
      2:{ unfold bin_angle. change (INR 0) with 0. field.
          apply not_0_INR. lia. }
      rewrite cos_sum_zero_angle, sin_sum_zero_angle.
      f_equal; f_equal; ring.
    - rewrite (map_constant (MathUtils.dft_bin (repeat (Fin c) (S N)))
                 {| real := Fin 0; imag := Fin 0 |}).
      + now rewrite length_seq.
      + intros j Hj. apply in_seq in Hj.
        rewrite dft_bin_constant by lia.
        rewrite cos_sum_roots, sin_sum_roots by lia.
        f_equal; f_equal; ring. }
  split; [exact Hbins |].
  rewrite Hbins. cbn [List.length]. rewrite repeat_length. lia.
Qed.

Lemma dft_constant_signal_witness :
  MathUtils.dft (repeat (Fin 7) 4)
  = {| real := Fin (INR 4 * 7); imag := Fin 0 |}
    :: repeat {| real := Fin 0; imag := Fin 0 |} (4 - 1)
  /\ List.length (MathUtils.dft (repeat (Fin 7) 4)) = 4%nat.
Proof.
  apply (dft_constant_signal 4 7). lia.
Defined.

(** ** The histogram *)

Lemma Zfloor_IZR_nat (z : Z) : Z.to_nat (Zfloor (IZR z)) = Z.to_nat z.
Proof. now rewrite ZfloorZ. Qed.

(** Array lengths and indices that are natural numbers. *)
Lemma array_length_nat (b : nat) :
  (Z.of_nat b <= 4294967295)%Z -> array_length (of_nat b) = Ret b.
Proof.
  intros Hb. unfold array_length, of_nat.
  rewrite INR_IZR_INZ, is_int_IZR, ZfloorZ, Nat2Z.id.
  rewrite Rleb_true by (apply IZR_le; lia).
  rewrite Rleb_true by (apply IZR_le; lia).
  reflexivity.
Qed.

Lemma array_index_nat (j : nat) :
  (Z.of_nat j <= 4294967294)%Z -> array_index (of_nat j) = Some j.
Proof.
  intros Hj. unfold array_index, of_nat.
  rewrite INR_IZR_INZ, is_int_IZR, ZfloorZ, Nat2Z.id.
  rewrite Rleb_true by (apply IZR_le; lia).
  rewrite Rleb_true by (apply IZR_le; lia).
  reflexivity.
Qed.

Lemma in_interval_finite (value : number) (lo hi : R) :
  ((value >=? Fin lo) && (value <=? Fin hi))%num = true ->
  exists v : R, value = Fin v /\ lo <= v <= hi.
Proof.
  unfold ge. destruct value as [| | | v]; cbn [le andb]; try discriminate.
  intros H. apply andb_true_iff in H as [H1 H2].
  apply Rleb_spec in H1, H2. now exists v.
Qed.

(** When the bounds are finite and [min < max], the bin index of a value
    of the interval is one of [0 .. bins - 1]. *)
Lemma bin_index_in_range (v lo hi : R) (b : nat) :
  (1 <= b)%nat -> lo < hi -> lo <= v <= hi ->
  exists j : nat,
    (j < b)%nat
    /\ Math.min (Math.floor ((Fin v - Fin lo) / ((Fin hi - Fin lo) / of_nat b)))
                (of_nat b - Fin 1)%num
       = of_nat j.
Proof.
  intros Hb Hlohi Hv.
  assert (HB : 1 <= INR b) by (change 1 with (INR 1); apply le_INR; lia).
  set (w := (hi + - lo) / INR b).
  assert (Hw : 0 < w) by (apply Rdiv_lt_0_compat; lra).
  unfold of_nat. cbn [sub neg add div].
  rewrite (Reqb_false (INR b) 0) by lra. fold w.
  rewrite (Reqb_false w 0) by lra.
  cbn [Math.floor Math.min le].
  set (q := (v + - lo) / w).
  assert (Hq : 0 <= q).
  { apply Rmult_le_pos; [lra | left; now apply Rinv_0_lt_compat]. }
  assert (Hfl : (0 <= Zfloor q)%Z) by now apply Zfloor_lub.
  destruct (Rle_dec (IZR (Zfloor q)) (INR b + - (1))) as [Hle | Hgt].
  - rewrite Rleb_true by exact Hle.
    exists (Z.to_nat (Zfloor q)). split.
    + assert (Zfloor q < Z.of_nat b)%Z; [| lia].
      apply lt_IZR. rewrite <- INR_IZR_INZ. lra.
    + now rewrite INR_IZR_INZ, Z2Nat.id.
  - rewrite Rleb_false by lra.
    exists (b - 1)%nat. split; [lia |].
    rewrite minus_INR by lia. reflexivity.
Qed.

(** Incrementing a bin of a histogram of counts adds one to the total. *)
Lemma array_incr_counts (cs : list nat) :
  forall j : nat,
    (j < List.length cs)%nat ->
    exists cs' : list nat,
      array_set (map of_nat cs) j (array_get (map of_nat cs) j + Fin 1)%num
      = map of_nat cs'
      /\ List.length cs' = List.length cs
      /\ list_sum cs' = S (list_sum cs).
Proof.
  induction cs as [| c cs IH]; intros j Hj; [cbn in Hj; lia |].
  destruct j as [| j].
  - exists (S c :: cs). cbn [map array_set array_get nth add of_nat].
    unfold of_nat at 2. rewrite S_INR. repeat split.
  - destruct (IH j) as [cs' [Hset [Hlen Hsum]]]; [cbn in Hj; lia |].
    exists (c :: cs'). cbn [map array_set]. unfold array_get in *.
    cbn [nth map]. rewrite Hset.
    repeat split; [cbn [List.length]; lia |].
    change (list_sum (c :: cs')) with (c + list_sum cs')%nat.
    change (list_sum (c :: cs)) with (c + list_sum cs)%nat. lia.
Qed.

Section Histogram.

Variables (lo hi : R) (b : nat).
Hypothesis b_pos : (1 <= b)%nat.
Hypothesis b_length : (Z.of_nat b <= 4294967295)%Z.
Hypothesis lo_lt_hi : lo < hi.

(** The callback of [data.forEach], on a histogram that holds counts. *)
Lemma histogram_step_counts (cs : list nat) (value : number) :
  List.length cs = b ->
  exists cs' : list nat,
    (if ((value >=? Fin lo) && (value <=? Fin hi))%num
     then array_incr (map of_nat cs)
            (Math.min
               (Math.floor
                  ((value - Fin lo) / ((Fin hi - Fin lo) / of_nat b))%num)
               (of_nat b - Fin 1)%num)
     else map of_nat cs)
    = map of_nat cs'
    /\ List.length cs' = b
    /\ list_sum cs'
       = (list_sum cs + count_within (Fin lo) (Fin hi) [value])%nat.
Proof.
  intros Hlen. unfold count_within. cbn [filter].
  destruct ((value >=? Fin lo) && (value <=? Fin hi))%num eqn:Hin.
  - destruct (in_interval_finite value lo hi Hin) as [v [-> Hv]].
    destruct (bin_index_in_range v lo hi b b_pos lo_lt_hi Hv) as [j [Hj ->]].
    unfold array_incr. rewrite array_index_nat by lia.
    destruct (array_incr_counts cs j) as [cs' [Hset [Hlen' Hsum]]]; [lia |].
    exists cs'. rewrite Hset. cbn [List.length]. repeat split; lia.
  - exists cs. cbn [List.length]. repeat split; [assumption | lia].
Qed.

Lemma histogram_fold_counts (data : list number) :
  forall cs : list nat,
    List.length cs = b ->
    exists cs' : list nat,
      fold_left
        (fun histogram value =>
           if ((value >=? Fin lo) && (value <=? Fin hi))%num
           then array_incr histogram
                  (Math.min
                     (Math.floor
                        ((value - Fin lo) / ((Fin hi - Fin lo) / of_nat b))%num)
                     (of_nat b - Fin 1)%num)
           else histogram)
        data (map of_nat cs)
      = map of_nat cs'
      /\ List.length cs' = b
      /\ list_sum cs'
         = (list_sum cs + count_within (Fin lo) (Fin hi) data)%nat.
Proof.
  induction data as [| value data IH]; intros cs Hlen.
  - exists cs. cbn. repeat split; [assumption | lia].
  - cbn [fold_left].
    destruct (histogram_step_counts cs value Hlen) as [cs1 [-> [Hlen1 Hsum1]]].
    destruct (IH cs1 Hlen1) as [cs2 [-> [Hlen2 Hsum2]]].
    exists cs2. repeat split; [assumption |].
    rewrite Hsum2, Hsum1. unfold count_within. cbn [filter].
    destruct ((value >=? Fin lo) && (value <=? Fin hi))%num;
      cbn [List.length]; lia.
Qed.

End Histogram.

Lemma map_array_get_seq (h : list number) :
  map (array_get h) (seq 0 (List.length h)) = h.
Proof.
  induction h as [| e h IH]; [reflexivity |].
  cbn [List.length seq map]. unfold array_get at 1. cbn [nth].
  rewrite <- seq_shift, map_map. f_equal. exact IH.
Qed.

Lemma fold_add_counts (cs : list nat) :
  forall a : nat,
    fold_left add (map of_nat cs) (of_nat a) = of_nat (a + list_sum cs).
Proof.
  induction cs as [| c cs IH]; intros a.
  - cbn. now rewrite Nat.add_0_r.
  - cbn [map fold_left].
    change (of_nat a + of_nat c)%num with (Fin (INR a + INR c)).
    rewrite <- plus_INR. fold (of_nat (a + c)). rewrite IH.
    change (list_sum (c :: cs)) with (c + list_sum cs)%nat.
    now rewrite Nat.add_assoc.
Qed.

Lemma sum_y_fold (points : list Point) :
  sum_y points = fold_left add (map y points) (Fin 0).
Proof.
  unfold sum_y. generalize (Fin 0) as acc.
  induction points as [| pt points IH]; intros acc; [reflexivity |].
  cbn [fold_left map]. apply IH.
Qed.

(** For finite bounds with [min < max] (supplied, or the extrema of the
    data) and [bins >= 1], the histogram has [bins] points and the [y]
    values add up to the number of data values in [[min, max]]. *)
Lemma generateHistogram_counts (data : list number) (b : nat)
    (mn mx : option number) (lo hi : R) :
  (1 <= b)%nat -> (Z.of_nat b <= 4294967295)%Z -> lo < hi ->
  match mn with Some m => m | None => Math.min_of data end = Fin lo ->
  match mx with Some m => m | None => Math.max_of data end = Fin hi ->
  exists points : list Point,
    DataUtils.generateHistogram data (Some (of_nat b)) mn mx = Ret points
    /\ List.length points = b
    /\ sum_y points = of_nat (count_within (Fin lo) (Fin hi) data).
Proof.
  intros Hb Hlen Hlt Hmn Hmx.
  unfold DataUtils.generateHistogram. rewrite Hmn, Hmx. cbn [default].
  rewrite array_length_nat by assumption. cbn [bind].
  replace (repeat (Fin 0) b) with (map of_nat (repeat 0%nat b))
    by (now rewrite map_repeat).
  destruct (histogram_fold_counts lo hi b Hb Hlen Hlt data (repeat 0%nat b))
    as [cs [-> [Hcs Hsum]]]; [apply repeat_length |].
  eexists. split; [reflexivity |].
  rewrite fold_left_snoc_map. cbn [app]. unfold below. split.
  - now rewrite length_map, length_seq.
  - rewrite sum_y_fold, map_map. cbn [y].
    rewrite <- Hcs at 1. rewrite <- (length_map of_nat cs).
    change (fun x0 : nat => array_get (map of_nat cs) x0)
      with (array_get (map of_nat cs)).
    rewrite map_array_get_seq.
    change (Fin 0) with (of_nat 0). rewrite fold_add_counts, Hsum.
    f_equal.
    assert (H0 : list_sum (repeat 0%nat b) = 0%nat).
    { clear. induction b as [| b IH]; [reflexivity | exact IH]. }
    rewrite H0. reflexivity.
Qed.

(** Four values in two bins: 1 and 2 fall in the first, 3 and the maximum 4
    (clamped from index 2) in the second. *)
Example generateHistogram_four_values :
  DataUtils.generateHistogram [Fin 1; Fin 2; Fin 3; Fin 4] (Some (Fin 2))
    None None
  = Ret [ {| x := Fin (7 / 4); y := Fin 2 |};
          {| x := Fin (13 / 4); y := Fin 2 |} ].
Proof.
  unfold DataUtils.generateHistogram.
  repeat progress
    (cbn [default Math.min_of Math.max_of fold_left Math.min Math.max le];
     decide_R).
  cbn [sub neg add div]. decide_R.
  unfold array_length. rewrite (is_int_IZR 2). decide_R. cbn [andb bind].
  rewrite (Zfloor_IZR_nat 2). change (Z.to_nat 2) with 2%nat.
  cbn [repeat ge le andb]. decide_R.
  cbn [div andb]. decide_R.
  cbn [Math.floor Math.min le].
  replace ((1 + - (1)) / ((4 + - (1)) / 2)) with 0 by (field; lra).
  replace ((2 + - (1)) / ((4 + - (1)) / 2)) with (2 / 3) by (field; lra).
  replace ((3 + - (1)) / ((4 + - (1)) / 2)) with (4 / 3) by (field; lra).
  replace ((4 + - (1)) / ((4 + - (1)) / 2)) with 2 by (field; lra).
  rewrite (ZfloorZ 0), (Zfloor_eq 0 (2 / 3)), (Zfloor_eq 1 (4 / 3)), (ZfloorZ 2)
    by lra.
  decide_R.
  replace (2 + - (1)) with 1 by lra.
  unfold array_incr, array_index.
  rewrite (is_int_IZR 0), (is_int_IZR 1). decide_R. cbn [andb].
  rewrite (Zfloor_IZR_nat 0), (Zfloor_IZR_nat 1).
  change (Z.to_nat 0) with 0%nat. change (Z.to_nat 1) with 1%nat.
  cbn [array_set array_get nth add below seq fold_left app of_nat INR mul div].
  decide_R. fin_eq.
Qed.

(** C7 (the code departs from the claim).  On the data [[5]] with two bins
    and bounds taken from the data, [min = max = 5] and the bin width is 0:
    the bin index [floor((5 - 5) / 0)] is NaN, the increment goes to a
    property of the array that is no bin, and both bins stay at 0, although
    one input value lies in [[5, 5]]. *)
Theorem generateHistogram_constant_data_lost :
  (Math.min (Math.floor ((Fin 5 - Fin 5) / ((Fin 5 - Fin 5) / Fin 2)))
            (Fin 2 - Fin 1))%num = NaN
  /\ DataUtils.generateHistogram [Fin 5] (Some (Fin 2)) None None
     = Ret [ {| x := Fin 5; y := Fin 0 |}; {| x := Fin 5; y := Fin 0 |} ]
  /\ sum_y [ {| x := Fin 5; y := Fin 0 |}; {| x := Fin 5; y := Fin 0 |} ]
     = Fin 0
  /\ count_within (Math.min_of [Fin 5]) (Math.max_of [Fin 5]) [Fin 5] = 1%nat.
Proof.
  repeat split.
  - cbn [sub neg add div]. decide_R. unfold signed_inf. decide_R. reflexivity.
  - unfold DataUtils.generateHistogram.
    cbn [default Math.min_of Math.max_of fold_left Math.min Math.max le].
    cbn [sub neg add div]. decide_R.
    unfold array_length. rewrite (is_int_IZR 2). decide_R. cbn [andb bind].
    rewrite (Zfloor_IZR_nat 2). change (Z.to_nat 2) with 2%nat.
    cbn [repeat ge le andb]. decide_R.
    cbn [div]. decide_R. unfold signed_inf. decide_R.
    cbn [Math.floor Math.min array_incr array_index below seq fold_left app
         array_get nth andb].
    cbn [of_nat mul add div INR]. decide_R.
    repeat f_equal; lra.
  - unfold sum_y. cbn [fold_left y add]. f_equal. lra.
  - unfold count_within.
    cbn [Math.min_of Math.max_of fold_left Math.min Math.max le filter ge].
    decide_R. reflexivity.
Qed.

(** ** The two copies of the harmonic signal generator *)

Lemma foldM_invariant {A I : Type} (body : I -> A -> outcome A)
    (P : A -> Prop) (xs : list I) :
  (forall (i : I) (a : A),
     In i xs -> P a -> exists a' : A, body i a = Ret a' /\ P a') ->
  forall a : A, P a -> exists a' : A, foldM body xs a = Ret a' /\ P a'.
Proof.
  induction xs as [| i xs IH]; intros Hbody a Ha.
  - exists a. now split.
  - destruct (Hbody i a (or_introl eq_refl) Ha) as [a1 [H1 Ha1]].
    cbn [foldM]. rewrite H1. cbn [bind].
    apply IH; [| exact Ha1].
    intros j a2 Hj. apply Hbody. now right.
Qed.

Lemma array_set_length (a : list number) :
  forall (i : nat) (v : number),
    (i < List.length a)%nat ->
    List.length (array_set a i v) = List.length a.
Proof.
  induction a as [| e a IH]; intros i v Hi; [cbn in Hi; lia |].
  destruct i as [| i]; cbn [array_set List.length]; [reflexivity |].
  rewrite IH; [reflexivity | cbn in Hi; lia].
Qed.

(** With a valid sample count and a finite number of harmonics the call
    returns an array of [samples] values. *)
Lemma generateSignalWithHarmonics_returns
    (baseFrequency : number) (harmonics : R) (amplitude : option number)
    (samples : nat) :
  (Z.of_nat samples <= 4294967295)%Z ->
  exists signal : list number,
    MathUtils.generateSignalWithHarmonics baseFrequency (Fin harmonics)
      amplitude (Some (of_nat samples)) = Ret signal
    /\ List.length signal = samples.
Proof.
  intros Hlen. unfold MathUtils.generateSignalWithHarmonics. cbn [default].
  rewrite array_length_nat by assumption. cbn [bind].
  apply (foldM_invariant _ (fun signal => List.length signal = samples)).
  - intros i signal Hi Hsig. unfold below in Hi. apply in_seq in Hi.
    unfold for_upto, upto.
    match goal with
    | |- context [foldM ?body ?xs ?init] =>
        destruct (foldM_invariant body (fun _ => True) xs) with (a := init)
          as [value [Hvalue _]]
    end.
    + intros h value _ _. eexists. split; [reflexivity | exact I].
    + exact I.
    + rewrite Hvalue. cbn [bind]. eexists. split; [reflexivity |].
      rewrite array_set_length; lia.
  - apply repeat_length.
Qed.

(** C9.  The definition in [math.ts] and the one in the data utilities
    return the same outcome on every argument: the same array, or both
    throw, or both run forever. *)
Theorem generateSignalWithHarmonics_copies_agree :
  forall (baseFrequency harmonics : number) (amplitude samples : option number),
    MathUtils.generateSignalWithHarmonics baseFrequency harmonics amplitude
      samples
    = DataUtils.generateSignalWithHarmonics baseFrequency harmonics amplitude
        samples.
Proof.
  intros baseFrequency harmonics amplitude samples.
  unfold MathUtils.generateSignalWithHarmonics,
    DataUtils.generateSignalWithHarmonics.
  destruct (array_length (default (Fin 1000) samples)) as [len | |];
    reflexivity.
Qed.

(* ================================================================= *)
(** * The rest of the numerical core *)

(** ** Loops with a real step and loops that push one value per round *)

Lemma range_loop_grid {A : Type} (body : number -> A -> A) (hi st : R) :
  0 < st ->
  forall (m fuel : nat) (x : R) (acc : A),
    (m < fuel)%nat ->
    hi < x + INR m * st ->
    ((0 < m)%nat -> x + (INR m - 1) * st <= hi) ->
    range_loop fuel (Fin hi) (Fin st) body (Fin x) acc
    = Some (fold_left (fun a v => body v a) (grid x st m) acc).
Proof.
  intros Hst. induction m as [| m IH]; intros fuel x acc Hfuel Hup Hlow.
  - destruct fuel as [| fuel]; [lia |].
    cbn in Hup. cbn [range_loop le]. now rewrite Rleb_false by lra.
  - destruct fuel as [| fuel]; [lia |].
    rewrite S_INR in Hup, Hlow.
    assert (Hm : 0 <= INR m) by apply pos_INR.
    assert (Hx : x <= hi) by (specialize (Hlow ltac:(lia)); nra).
    cbn [range_loop le add grid fold_left]. rewrite Rleb_true by exact Hx.
    apply IH; [lia | lra |].
    intros Hpos. specialize (Hlow ltac:(lia)). lra.
Qed.

Lemma range_loop_finite {A : Type} (body : number -> A -> A)
    (lo hi st : R) (fuel : nat) (acc : A) :
  0 < st ->
  (Z.to_nat (floor_count lo hi st) < fuel)%nat ->
  range_loop fuel (Fin hi) (Fin st) body (Fin lo) acc
  = Some (fold_left (fun a v => body v a)
            (grid lo st (Z.to_nat (floor_count lo hi st))) acc).
Proof.
  intros Hst Hfuel.
  destruct (floor_count_bounds lo hi st Hst) as [Hup Hlow].
  now apply range_loop_grid.
Qed.

Lemma foldM_push {A I : Type} (g : I -> A) (xs : list I) :
  forall acc : list A,
    foldM (fun i acc => Ret (acc ++ [g i])) xs acc = Ret (acc ++ map g xs).
Proof.
  induction xs as [| i xs IH]; intros acc; cbn [foldM map bind].
  - now rewrite app_nil_r.
  - rewrite IH, <- app_assoc. reflexivity.
Qed.

Lemma Zceil_INR (n : nat) : Zceil (INR n) = Z.of_nat n.
Proof. rewrite INR_IZR_INZ. apply Zceil_eq. lra. Qed.

Lemma for_below_push {A : Type} (g : number -> A) (s : nat) :
  for_below (of_nat s) (fun i acc => Ret (acc ++ [g i])) []
  = Ret (map (fun i => g (of_nat i)) (seq 0 s)).
Proof.
  unfold for_below, below_num, of_nat. rewrite Zceil_INR, Nat2Z.id.
  now rewrite (foldM_push (fun i => g (Fin (INR i)))).
Qed.

(** ** The numerical derivative and the tangent line *)

(** X1.  The central difference is exact on polynomials of degree at most
    two, for every finite step other than 0 and for the default step. *)
Theorem calculateDerivative_quadratic :
  forall a b c x h : R,
    h <> 0 ->
    Calculus.calculateDerivative (quadratic a b c) (Fin x) (Some (Fin h))
    = Ret (Fin (2 * a * x + b))
    /\ Calculus.calculateDerivative (quadratic a b c) (Fin x) None
       = Ret (Fin (2 * a * x + b)).
Proof.
  intros a b c x h Hh.
  assert (H : forall k : R, k <> 0 ->
            Calculus.calculateDerivative (quadratic a b c) (Fin x)
              (Some (Fin k))
            = Ret (Fin (2 * a * x + b))).
  { intros k Hk. unfold Calculus.calculateDerivative, quadratic.
    cbn [default sub neg add mul div].
    rewrite Reqb_false by lra.
    f_equal. f_equal. field. exact Hk. }
  split; [now apply H |].
  apply (H (1 / 100000000)). lra.
Qed.

Lemma calculateDerivative_quadratic_witness :
  Calculus.calculateDerivative (quadratic 1 0 0) (Fin 3) (Some (Fin (1 / 2)))
  = Ret (Fin (2 * 1 * 3 + 0))
  /\ Calculus.calculateDerivative (quadratic 1 0 0) (Fin 3) None
     = Ret (Fin (2 * 1 * 3 + 0)).
Proof. apply (calculateDerivative_quadratic 1 0 0 3 (1 / 2)). lra. Defined.


Lemma add_not_finite_r (a b : number) :
  isFinite b = false -> isFinite (a + b) = false.
Proof. destruct a, b; cbn; congruence. Qed.

Lemma signed_inf_not_finite (d : R) : isFinite (signed_inf d) = false.
Proof. unfold signed_inf. destruct (Rltb 0 d), (Rltb d 0); reflexivity. Qed.

Lemma mul_not_finite_l (a b : number) :
  isFinite a = false -> isFinite (a * b) = false.
Proof.
  destruct a, b; cbn; try congruence; intros _; apply signed_inf_not_finite.
Qed.

(** The body of the tangent loop over a grid of finite values, when the
    slope and the value at [x0] are finite: every value gives a point. *)
Lemma tangent_fold_finite (s y0 x0 st : R) (m : nat) :
  forall (lo : R) (acc : list Point),
    fold_left
      (fun a v =>
         let y := (Fin y0 + Fin s * (v - Fin x0))%num in
         if isFinite y && negb (isNaN y)
         then a ++ [{| x := v; y := y |}] else a)
      (grid lo st m) acc
    = acc ++ map (tangent_point (Fin s) (Fin y0) (Fin x0)) (grid lo st m).
Proof.
  induction m as [| m IH]; intros lo acc; cbn [grid fold_left map].
  - now rewrite app_nil_r.
  - cbn [sub neg add mul isFinite isNaN andb negb].
    rewrite IH, <- app_assoc. reflexivity.
Qed.


Lemma calculateDerivative_default (f : jsfun) (x a b : R) :
  f (Fin (x + 1 / 100000000)) = Some (Fin a) ->
  f (Fin (x + - (1 / 100000000))) = Some (Fin b) ->
  Calculus.calculateDerivative f (Fin x) None
  = Ret (Fin ((a + - b) / (2 * (1 / 100000000)))).
Proof.
  intros Ha Hb. unfold Calculus.calculateDerivative.
  cbn [default sub neg add]. rewrite Ha, Hb.
  cbn [sub neg add mul div]. now rewrite Reqb_false by lra.
Qed.

(** The tangent line over a finite range, from the slope and the value at
    [x0]. *)
Lemma generateTangentLine_line (f : jsfun) (x0 s y0 lo hi st : R)
    (fuel : nat) :
  Calculus.calculateDerivative f (Fin x0) None = Ret (Fin s) ->
  f (Fin x0) = Some (Fin y0) ->
  0 < st ->
  (Z.to_nat (floor_count lo hi st) < fuel)%nat ->
  Calculus.generateTangentLine fuel f (Fin x0) (finite_range lo hi st)
  = Some (Ret (map (tangent_point (Fin s) (Fin y0) (Fin x0))
                 (grid lo st (Z.to_nat (floor_count lo hi st))))).
Proof.
  intros Hd Hy0 Hst Hfuel. unfold Calculus.generateTangentLine.
  rewrite Hd, Hy0. cbn [finite_range max min step].
  rewrite range_loop_finite by assumption.
  now rewrite tangent_fold_finite.
Qed.

(** The loop of [generateTangentLine] is the sampling loop run on the line
    [v => y0 + slope * (v - x0)], from every state and with every fuel. *)
Lemma tangent_loop_is_sample_loop (slope y0 x0 : number)
    (range : FunctionRange) (fuel : nat) :
  forall (v : number) (points : list Point),
    range_loop fuel (max range) (step range)
      (fun x points =>
         let y := (y0 + slope * (x - x0))%num in
         if isFinite y && negb (isNaN y)
         then points ++ [{| x := x; y := y |}]
         else points)
      v points
    = MathUtils.sample_loop fuel
        (fun v => Some (y0 + slope * (v - x0))%num) range v points.
Proof.
  induction fuel as [| fuel IH]; intros v points; [reflexivity |].
  cbn [range_loop MathUtils.sample_loop]. cbv zeta.
  destruct (v <=? max range)%num; [| reflexivity].
  rewrite IH.
  now destruct (isFinite (y0 + slope * (v - x0))
                && negb (isNaN (y0 + slope * (v - x0)))).
Qed.

(** X2.  When [f] returns at [x0] and at the two neighbours the default
    step reaches, [generateTangentLine(f, x0, range)] returns the points
    that [generateFunctionPoints] returns on the same range for the line
    [v => y0 + slope * (v - x0)], where [y0 = f(x0)] and [slope] is
    [calculateDerivative(f, x0)]: the same values are visited, the same
    points are filtered out, and the two calls end together.  This holds
    for all numbers [x0], [y0], [slope] and every range. *)
Theorem generateTangentLine_samples_the_line :
  forall (f : jsfun) (x0 slope y0 : number) (range : FunctionRange)
         (fuel : nat),
    Calculus.calculateDerivative f x0 None = Ret slope ->
    f x0 = Some y0 ->
    Calculus.generateTangentLine fuel f x0 range
    = option_map Ret
        (MathUtils.generateFunctionPoints fuel
           (fun v => Some (y0 + slope * (v - x0))%num) range).
Proof.
  intros f x0 slope y0 range fuel Hd Hy0.
  unfold Calculus.generateTangentLine, MathUtils.generateFunctionPoints.
  rewrite Hd, Hy0. now rewrite tangent_loop_is_sample_loop.
Qed.

Lemma generateTangentLine_samples_the_line_witness :
  Calculus.generateTangentLine 4 (quadratic 1 0 0) (Fin 1)
    (finite_range 0 5 2)
  = option_map Ret
      (MathUtils.generateFunctionPoints 4
         (fun v =>
            Some (Fin (1 * 1 * 1 + 0 * 1 + 0)
                  + Fin (((1 * (1 + 1 / 100000000) * (1 + 1 / 100000000)
                           + 0 * (1 + 1 / 100000000) + 0)
                          + - (1 * (1 + - (1 / 100000000))
                                 * (1 + - (1 / 100000000))
                               + 0 * (1 + - (1 / 100000000)) + 0))
                         / (2 * (1 / 100000000)))
                    * (v - Fin 1))%num)
         (finite_range 0 5 2)).
Proof.
  apply (generateTangentLine_samples_the_line (quadratic 1 0 0) (Fin 1)).
  - apply calculateDerivative_default; reflexivity.
  - reflexivity.
Defined.

Lemma affine_sample_is_tangent (a b x0 st : R) (m : nat) :
  forall lo : R,
    flat_map (sample (affine a b)) (grid lo st m)
    = map (tangent_point (Fin ((a * (x0 + 1 / 100000000) + b
                                + - (a * (x0 + - (1 / 100000000)) + b))
                               / (2 * (1 / 100000000))))
             (Fin (a * x0 + b)) (Fin x0))
        (grid lo st m).
Proof.
  induction m as [| m IH]; intros lo; [reflexivity |].
  cbn [grid flat_map map]. rewrite IH.
  unfold sample at 1, affine, tangent_point at 2.
  cbn [mul add sub neg isFinite app].
  f_equal. f_equal. f_equal. field.
Qed.

(** X3.  On a function [v => a * v + b] the tangent line at any finite
    [x0] is the graph itself: [generateTangentLine] returns the points
    [generateFunctionPoints] returns on the same range. *)
Theorem generateTangentLine_affine :
  forall (a b x0 lo hi st : R) (fuel : nat),
    0 < st ->
    (Z.to_nat (floor_count lo hi st) < fuel)%nat ->
    exists points : list Point,
      Calculus.generateTangentLine fuel (affine a b) (Fin x0)
        (finite_range lo hi st) = Some (Ret points)
      /\ MathUtils.generateFunctionPoints fuel (affine a b)
           (finite_range lo hi st) = Some points.
Proof.
  intros a b x0 lo hi st fuel Hst Hfuel.
  eexists. split.
  - apply generateTangentLine_line; try assumption.
    + apply calculateDerivative_default; reflexivity.
    + reflexivity.
  - rewrite (generateFunctionPoints_grid (affine a b) lo hi st Hst fuel Hfuel).
    now rewrite (affine_sample_is_tangent a b x0).
Qed.

Lemma generateTangentLine_affine_witness :
  exists points : list Point,
    Calculus.generateTangentLine 4 (affine 3 1) (Fin 2)
      (finite_range 0 5 2) = Some (Ret points)
    /\ MathUtils.generateFunctionPoints 4 (affine 3 1)
         (finite_range 0 5 2) = Some points.
Proof.
  apply (generateTangentLine_affine 3 1 2 0 5 2 4).
  - lra.
  - rewrite floor_count_0_5_2. cbn. lia.
Defined.



(** ** The densities *)

Lemma pow_two (d : R) : Math.pow (Fin d) (Fin 2) = Fin (d * d).
Proof.
  unfold Math.pow. rewrite (Reqb_false 2 0) by lra.
  destruct (Req_dec_T d 0) as [-> | Hd].
  - rewrite Reqb_true by reflexivity. rewrite Rltb_true by lra.
    f_equal. ring.
  - rewrite Reqb_false by assumption.
    rewrite (is_int_IZR 2), (ZfloorZ 2). f_equal.
    unfold powerRZ. change (Pos.to_nat 2) with 2%nat. cbn [pow]. ring.
Qed.

Lemma exp_le_1 (t : R) : t <= 0 -> exp t <= 1.
Proof.
  intros [Ht | ->]; [| rewrite exp_0; lra].
  left. rewrite <- exp_0. now apply exp_increasing.
Qed.

Lemma sqrt_2PI_pos : 0 < sqrt (2 * PI).
Proof. apply sqrt_lt_R0. pose proof PI_RGT_0. lra. Qed.

(** The density in closed form, for a standard deviation other than 0. *)
Lemma normalPDF_closed_form (x m s : R) :
  s <> 0 ->
  Distributions.normalPDF (Fin x) (Some (Fin m)) (Some (Fin s))
  = Fin (1 / (s * sqrt (2 * PI))
         * exp (- ((x + - m) * (x + - m)) / (2 * (s * s)))).
Proof.
  intros Hs. pose proof sqrt_2PI_pos as Hq. pose proof PI_RGT_0 as Hpi.
  unfold Distributions.normalPDF. cbn [default sub neg add].
  rewrite !pow_two. unfold Math.PI, MathMore.sqrt. cbn [mul neg].
  rewrite (Rltb_false (2 * PI) 0) by lra. cbn [mul div].
  assert (Hden : s * sqrt (2 * PI) <> 0)
    by (apply Rmult_integral_contrapositive_currified; lra).
  assert (Hss : 2 * (s * s) <> 0) by nra.
  rewrite (Reqb_false _ 0 Hden), (Reqb_false _ 0 Hss).
  reflexivity.
Qed.

(** X5.  In exact arithmetic (no rounding, overflow or underflow), for a
    positive standard deviation the normal density is a positive finite
    number, the same at equal distances on both sides of the mean, and
    nowhere above its value at the mean, which is
    [1 / (stdDev * sqrt(2 * pi))]. *)
Theorem normalPDF_shape :
  forall m s d : R,
    0 < s ->
    exists r : R,
      Distributions.normalPDF (Fin (m + d)) (Some (Fin m)) (Some (Fin s))
      = Fin r
      /\ Distributions.normalPDF (Fin (m - d)) (Some (Fin m)) (Some (Fin s))
         = Fin r
      /\ 0 < r <= 1 / (s * sqrt (2 * PI))
      /\ Distributions.normalPDF (Fin m) (Some (Fin m)) (Some (Fin s))
         = Fin (1 / (s * sqrt (2 * PI))).
Proof.
  intros m s d Hs. pose proof sqrt_2PI_pos as Hq.
  assert (Hc : 0 < 1 / (s * sqrt (2 * PI))).
  { apply Rdiv_lt_0_compat; [lra | now apply Rmult_lt_0_compat]. }
  rewrite !normalPDF_closed_form by lra.
  eexists. split; [reflexivity |]. split; [| split].
  - replace ((m - d + - m) * (m - d + - m))
      with ((m + d + - m) * (m + d + - m)) by ring.
    reflexivity.
  - set (e := exp (- ((m + d + - m) * (m + d + - m)) / (2 * (s * s)))).
    assert (He : 0 < e <= 1).
    { split; [apply exp_pos |]. apply exp_le_1.
      assert (0 <= (m + d + - m) * (m + d + - m) / (2 * (s * s))).
      { apply Rmult_le_pos; [nra |]. left. apply Rinv_0_lt_compat. nra. }
      unfold Rdiv in *. lra. }
    nra.
  - f_equal. replace (- ((m + - m) * (m + - m)) / (2 * (s * s))) with 0.
    + rewrite exp_0. ring.
    + field. lra.
Qed.

Lemma normalPDF_shape_witness :
  exists r : R,
    Distributions.normalPDF (Fin (0 + 1)) (Some (Fin 0)) (Some (Fin 1))
    = Fin r
    /\ Distributions.normalPDF (Fin (0 - 1)) (Some (Fin 0)) (Some (Fin 1))
       = Fin r
    /\ 0 < r <= 1 / (1 * sqrt (2 * PI))
    /\ Distributions.normalPDF (Fin 0) (Some (Fin 0)) (Some (Fin 1))
       = Fin (1 / (1 * sqrt (2 * PI))).
Proof. apply (normalPDF_shape 0 1 1). lra. Defined.

(** X6.  The standard deviation is not validated: with [stdDev = 0] the
    density is NaN at every finite [x], the mean included. *)
Theorem normalPDF_zero_stdDev :
  forall x m : R,
    Distributions.normalPDF (Fin x) (Some (Fin m)) (Some (Fin 0)) = NaN.
Proof.
  intros x m. unfold Distributions.normalPDF. cbn [default sub neg add].
  rewrite !pow_two. unfold Math.PI, MathMore.sqrt. cbn [mul neg].
  pose proof PI_RGT_0 as Hpi.
  rewrite (Rltb_false (2 * PI) 0) by lra. cbn [mul div].
  rewrite (Reqb_true (0 * sqrt (2 * PI)) 0) by ring.
  rewrite (Reqb_true (2 * (0 * 0)) 0) by ring.
  unfold signed_inf at 1. rewrite (Rltb_true 0 1) by lra.
  unfold signed_inf.
  assert (Hsq : 0 <= (x + - m) * (x + - m)) by apply (Rle_0_sqr (x + - m)).
  rewrite (Rltb_false 0 (- ((x + - m) * (x + - m)))) by lra.
  destruct (Rltb (- ((x + - m) * (x + - m))) 0); cbn [Math.exp mul].
  - unfold signed_inf. now rewrite !Rltb_false by lra.
  - reflexivity.
Qed.

(** The value of [erf] at a real, from the absolute value [u] of the
    argument and its sign. *)
Lemma erf_value (w : R) :
  Distributions.erf (Fin w)
  = Fin ((if Rleb 0 w then 1 else -1)
         * (1
            + - (((((1061405429 / 1000000000
                     * (1 / (1 + 3275911 / 10000000 * Rabs w))
                     + - (1453152027 / 1000000000))
                    * (1 / (1 + 3275911 / 10000000 * Rabs w))
                    + 1421413741 / 1000000000)
                   * (1 / (1 + 3275911 / 10000000 * Rabs w))
                   + - (284496736 / 1000000000))
                  * (1 / (1 + 3275911 / 10000000 * Rabs w))
                  + 254829592 / 1000000000)
                 * (1 / (1 + 3275911 / 10000000 * Rabs w))
                 * exp (- Rabs w * Rabs w)))).
Proof.
  unfold Distributions.erf, ge, MathMore.abs. cbn [le mul add].
  pose proof (Rabs_pos w) as Hu.
  cbn [div]. rewrite (Reqb_false (1 + 3275911 / 10000000 * Rabs w) 0) by lra.
  cbn [mul add sub neg Math.exp].
  destruct (Rleb 0 w); cbn [mul]; reflexivity.
Qed.

Lemma erf_finite_odd (w : R) :
  w <> 0 ->
  exists e : R,
    Distributions.erf (Fin w) = Fin e
    /\ Distributions.erf (Fin (- w)) = Fin (- e)
    /\ Distributions.erf (Fin 0) = Fin (1 / 1000000000).
Proof.
  intros Hw. rewrite !erf_value. rewrite Rabs_Ropp.
  eexists. split; [reflexivity |]. split.
  - f_equal.
    destruct (Rle_dec 0 w) as [Hp | Hn].
    + rewrite (Rleb_true 0 w) by assumption.
      rewrite (Rleb_false 0 (- w)) by lra. ring.
    + rewrite (Rleb_false 0 w) by lra.
      rewrite (Rleb_true 0 (- w)) by lra. ring.
  - rewrite Rabs_R0. rewrite (Rleb_true 0 0) by lra.
    replace (- 0 * 0) with 0 by ring. rewrite exp_0. f_equal. field.
Qed.

(** X7.  The approximation of the error function is finite at every finite
    argument and odd away from 0, but it is not 0 at 0: the five
    coefficients add up to [1 - 1e-9], so [erf(0)] is [1e-9]. *)
Theorem erf_odd_except_at_zero :
  forall w : R,
    w <> 0 ->
    exists e : R,
      Distributions.erf (Fin w) = Fin e
      /\ Distributions.erf (Fin (- w)) = Fin (- e)
      /\ Distributions.erf (Fin 0) = Fin (1 / 1000000000).
Proof. intros w Hw. now apply erf_finite_odd. Qed.

Lemma erf_odd_except_at_zero_witness :
  exists e : R,
    Distributions.erf (Fin 1) = Fin e
    /\ Distributions.erf (Fin (- (1))) = Fin (- e)
    /\ Distributions.erf (Fin 0) = Fin (1 / 1000000000).
Proof. apply (erf_odd_except_at_zero 1). lra. Defined.

Lemma normalCDF_value (x m s : R) :
  s <> 0 ->
  Distributions.normalCDF (Fin x) (Some (Fin m)) (Some (Fin s))
  = (Fin (1 / 2)
     * (Fin 1 + Distributions.erf (Fin ((x + - m) / s / sqrt 2))))%num.
Proof.
  intros Hs. unfold Distributions.normalCDF, MathMore.sqrt.
  cbn [default sub neg add div].
  rewrite (Reqb_false s 0) by assumption.
  rewrite (Rltb_false 2 0) by lra. cbn [div].
  now rewrite (Reqb_false (sqrt 2) 0) by apply sqrt2_neq_0.
Qed.

(** X8.  For a standard deviation other than 0, the values of [normalCDF]
    at [mean + d] and [mean - d] add up to 1 when [d] is not 0; at the mean
    itself the value is [0.5 * (1 + 1e-9)], not one half. *)
Theorem normalCDF_symmetry :
  forall m s d : R,
    s <> 0 -> d <> 0 ->
    exists c : R,
      Distributions.normalCDF (Fin (m + d)) (Some (Fin m)) (Some (Fin s))
      = Fin c
      /\ Distributions.normalCDF (Fin (m - d)) (Some (Fin m)) (Some (Fin s))
         = Fin (1 - c)
      /\ Distributions.normalCDF (Fin m) (Some (Fin m)) (Some (Fin s))
         = Fin (1 / 2 * (1 + 1 / 1000000000)).
Proof.
  intros m s d Hs Hd. pose proof sqrt2_neq_0 as H2.
  rewrite !normalCDF_value by assumption.
  set (w := (m + d + - m) / s / sqrt 2).
  assert (Hw : w <> 0).
  { unfold w. replace (m + d + - m) with d by ring.
    unfold Rdiv. repeat apply Rmult_integral_contrapositive_currified;
      try assumption; now apply Rinv_neq_0_compat. }
  replace ((m - d + - m) / s / sqrt 2) with (- w) by (unfold w; field; auto).
  replace ((m + - m) / s / sqrt 2) with 0 by (field; auto).
  destruct (erf_finite_odd w Hw) as [e [He [Hne H0]]].
  rewrite He, Hne, H0. cbn [add mul].
  exists (1 / 2 * (1 + e)). repeat split. f_equal. field.
Qed.

Lemma normalCDF_symmetry_witness :
  exists c : R,
    Distributions.normalCDF (Fin (0 + 1)) (Some (Fin 0)) (Some (Fin 1))
    = Fin c
    /\ Distributions.normalCDF (Fin (0 - 1)) (Some (Fin 0)) (Some (Fin 1))
       = Fin (1 - c)
    /\ Distributions.normalCDF (Fin 0) (Some (Fin 0)) (Some (Fin 1))
       = Fin (1 / 2 * (1 + 1 / 1000000000)).
Proof. apply (normalCDF_symmetry 0 1 1); lra. Defined.

(** X9.  For a positive rate the exponential density is a finite number
    from 0 to [lambda]: it is 0 at every negative [x], it is [lambda] at 0,
    and it is nowhere negative and nowhere above [lambda]. *)
Theorem exponentialPDF_bounds :
  forall x lambda : R,
    0 < lambda ->
    exists r : R,
      Distributions.exponentialPDF (Fin x) (Fin lambda) = Fin r
      /\ 0 <= r <= lambda
      /\ (x < 0 -> r = 0)
      /\ Distributions.exponentialPDF (Fin 0) (Fin lambda) = Fin lambda.
Proof.
  intros x lambda Hl.
  assert (H0 : Distributions.exponentialPDF (Fin 0) (Fin lambda)
               = Fin lambda).
  { unfold Distributions.exponentialPDF, lt. rewrite Rltb_false by lra.
    cbn [neg mul Math.exp]. replace (- lambda * 0) with 0 by ring.
    rewrite exp_0. f_equal. ring. }
  unfold Distributions.exponentialPDF at 1. unfold lt.
  destruct (Rlt_dec x 0) as [Hneg | Hpos].
  - rewrite Rltb_true by assumption. exists 0.
    repeat split; try lra. exact H0.
  - rewrite Rltb_false by lra. cbn [neg mul Math.exp].
    exists (lambda * exp (- lambda * x)).
    pose proof (exp_pos (- lambda * x)) as He.
    assert (He1 : exp (- lambda * x) <= 1) by (apply exp_le_1; nra).
    repeat split; try nra. exact H0.
Qed.

Lemma exponentialPDF_bounds_witness :
  exists r : R,
    Distributions.exponentialPDF (Fin 3) (Fin 2) = Fin r
    /\ 0 <= r <= 2
    /\ (3 < 0 -> r = 0)
    /\ Distributions.exponentialPDF (Fin 0) (Fin 2) = Fin 2.
Proof. apply (exponentialPDF_bounds 3 2). lra. Defined.

(** ** The factorial and the Poisson distribution *)

Lemma IZR_2_plus_nat (j : nat) : IZR (2 + Z.of_nat j) = INR (S (S j)).
Proof. rewrite INR_IZR_INZ. f_equal. lia. Qed.

(** The loop of [factorial], run for the counter values [2 .. m + 1]. *)
Lemma factorial_loop (m : nat) :
  foldM (fun i result => Ret (result * of_Z i)%num)
        (map (fun j => (2 + Z.of_nat j)%Z) (seq 0 m)) (Fin 1)
  = Ret (Fin (INR (fact (S m)))).
Proof.
  induction m as [| m IH].
  - reflexivity.
  - rewrite seq_S, map_app, foldM_app, IH.
    cbn [bind map foldM Nat.add]. unfold of_Z. rewrite IZR_2_plus_nat.
    cbn [mul]. f_equal. f_equal.
    rewrite (fact_simpl (S m)), mult_INR. ring.
Qed.

Lemma factorial_fact (k : nat) :
  MathUtils.factorial (of_nat k) = Ret (Fin (INR (fact k))).
Proof.
  unfold MathUtils.factorial, of_nat, lt, seq_num.
  rewrite (Rltb_false (INR k) 0) by apply pos_INR.
  destruct k as [| [| k]].
  - rewrite Reqb_true by reflexivity. reflexivity.
  - rewrite (Reqb_false (INR 1) 0) by (cbn; lra).
    rewrite (Reqb_true (INR 1) 1) by reflexivity. reflexivity.
  - assert (H2 : 2 <= INR (S (S k))).
    { rewrite !S_INR. pose proof (pos_INR k). lra. }
    rewrite (Reqb_false (INR (S (S k))) 0) by lra.
    rewrite (Reqb_false (INR (S (S k))) 1) by lra.
    cbn [orb]. unfold for_upto. rewrite upto_nat.
    replace (Z.to_nat (Z.of_nat (S (S k)) - 2 + 1)) with (S k) by lia.
    apply factorial_loop.
Qed.

(** X10.  In exact arithmetic (no rounding, overflow or underflow), on
    every natural number [k] the loop of [factorial] computes [k!], and for
    a finite [lambda] the Poisson mass is [lambda^k * exp(-lambda) / k!]; in
    particular it is [exp(-lambda)] at [k = 0]. *)
Theorem poissonPMF_formula :
  forall (k : nat) (lambda : R),
    MathUtils.factorial (of_nat k) = Ret (of_nat (fact k))
    /\ MathUtils.poissonPMF (of_nat k) (Fin lambda)
       = Ret (Fin (lambda ^ k * exp (- lambda) / INR (fact k)))
    /\ MathUtils.poissonPMF (of_nat 0) (Fin lambda)
       = Ret (Fin (exp (- lambda))).
Proof.
  intros k lambda.
  assert (H : forall j : nat,
            MathUtils.poissonPMF (of_nat j) (Fin lambda)
            = Ret (Fin (lambda ^ j * exp (- lambda) / INR (fact j)))).
  { intros j. unfold MathUtils.poissonPMF. rewrite factorial_fact.
    cbn [bind]. unfold of_nat. rewrite pow_nat. cbn [neg Math.exp mul div].
    now rewrite Reqb_false by apply INR_fact_neq_0. }
  split; [apply factorial_fact |]. split; [apply H |].
  rewrite H. f_equal. f_equal. cbn [pow fact INR]. field.
Qed.

(** ** The waveforms *)

(** The sample at [t = 0] of a sine of any frequency is not positive. *)
Lemma sine_at_start_not_positive (frequency : number) (s : R) :
  s <> 0 ->
  (Math.sin (Fin 2 * Math.PI * frequency * (Fin 0 / Fin s)) >? Fin 0)%num
  = false.
Proof.
  intros Hs. pose proof PI_RGT_0 as Hpi.
  unfold Math.PI, gt. cbn [div mul]. rewrite (Reqb_false s 0) by assumption.
  assert (H0 : 0 / s = 0) by (field; assumption). rewrite H0.
  destruct frequency as [| | | f]; cbn [mul].
  - reflexivity.
  - unfold signed_inf. rewrite (Rltb_true 0 (2 * PI)) by lra.
    cbn [mul]. unfold signed_inf. now rewrite !Rltb_false by lra.
  - unfold signed_inf. rewrite (Rltb_false 0 (- (2 * PI))) by lra.
    rewrite (Rltb_true (- (2 * PI)) 0) by lra.
    cbn [mul]. unfold signed_inf. now rewrite !Rltb_false by lra.
  - cbn [Math.sin lt]. rewrite Rmult_0_r, sin_0. now apply Rltb_false; lra.
Qed.

(** X11.  For every frequency and amplitude, finite or not, and every
    sample count [s >= 1], the square wave has [s] samples, each of them the
    amplitude or its opposite, and it starts low: the first sample is
    [-amplitude]. *)
Theorem generateSquareWave_levels :
  forall (frequency amplitude : number) (s : nat),
    (1 <= s)%nat ->
    exists signal : list number,
      Signals.generateSquareWave frequency (Some amplitude) (Some (of_nat s))
      = Ret signal
      /\ List.length signal = s
      /\ Forall (fun v => v = amplitude \/ v = (- amplitude)%num) signal
      /\ nth_error signal 0 = Some (- amplitude)%num.
Proof.
  intros frequency amplitude s Hs.
  unfold Signals.generateSquareWave. cbn [default]. cbv zeta.
  rewrite (for_below_push
             (fun i =>
                if (Math.sin (Fin 2 * Math.PI * frequency * (i / of_nat s))
                    >? Fin 0)%num
                then amplitude else (- amplitude)%num)).
  eexists. split; [reflexivity |]. split; [| split].
  - now rewrite length_map, length_seq.
  - apply Forall_map, Forall_forall. intros i _.
    destruct (_ >? _)%num; [now left | now right].
  - destruct s as [| s]; [lia |]. cbn [seq map nth_error].
    change (of_nat 0) with (Fin 0). unfold of_nat at 1.
    rewrite sine_at_start_not_positive; [reflexivity |].
    apply not_0_INR. lia.
Qed.

Lemma generateSquareWave_levels_witness :
  exists signal : list number,
    Signals.generateSquareWave (Fin 5) (Some (Fin 2)) (Some (of_nat 8))
    = Ret signal
    /\ List.length signal = 8%nat
    /\ Forall (fun v => v = Fin 2 \/ v = (- Fin 2)%num) signal
    /\ nth_error signal 0 = Some (- Fin 2)%num.
Proof. apply (generateSquareWave_levels (Fin 5) (Fin 2) 8). lia. Defined.









(** ** Distribution data *)

Lemma foldM_push_in {A I : Type} (body : I -> list A -> outcome (list A))
    (g : I -> A) (xs : list I) :
  (forall (i : I) (acc : list A), In i xs -> body i acc = Ret (acc ++ [g i])) ->
  forall acc : list A, foldM body xs acc = Ret (acc ++ map g xs).
Proof.
  induction xs as [| i xs IH]; intros Hbody acc; cbn [foldM map].
  - now rewrite app_nil_r.
  - rewrite Hbody by now left. cbn [bind].
    rewrite IH by (intros j a Hj; apply Hbody; now right).
    now rewrite <- app_assoc.
Qed.

(** The counter values [0 .. n] of a loop [for (k = 0; k <= n; k++)]. *)
Lemma for_upto_0_push {A : Type} (n : nat)
    (body : number -> list A -> outcome (list A)) (g : nat -> A) :
  (forall (k : nat) (acc : list A),
     (k <= n)%nat -> body (of_nat k) acc = Ret (acc ++ [g k])) ->
  for_upto 0 (of_nat n) body [] = Ret (map g (seq 0 (S n))).
Proof.
  intros Hbody. unfold for_upto, of_nat. rewrite upto_nat.
  replace (Z.to_nat (Z.of_nat n - 0 + 1)) with (S n) by lia.
  rewrite (foldM_push_in _ (fun z => g (Z.to_nat z))).
  - cbn [app]. rewrite map_map. f_equal. apply map_ext.
    intros j. f_equal. lia.
  - intros z acc Hz. apply in_map_iff in Hz as [j [<- Hj]].
    apply in_seq in Hj. unfold of_Z.
    replace (IZR (0 + Z.of_nat j)) with (INR j)
      by (rewrite INR_IZR_INZ; f_equal; lia).
    replace (Z.to_nat (0 + Z.of_nat j)) with j by lia.
    apply Hbody. lia.
Qed.

Lemma sum_y_app (ps qs : list Point) :
  sum_y (ps ++ qs) = fold_left (fun acc pt => (acc + y pt)%num) qs (sum_y ps).
Proof. unfold sum_y. now rewrite fold_left_app. Qed.

Lemma sum_y_terms (X : nat -> number) (F : nat -> R) (m : nat) :
  sum_y (map (fun k => {| x := X k; y := Fin (F k) |}) (seq 0 (S m)))
  = Fin (sum_f_R0 F m).
Proof.
  induction m as [| m IH].
  - cbn. f_equal. ring.
  - rewrite seq_S, map_app, sum_y_app, IH. reflexivity.
Qed.

Lemma or_else_nonzero (r d : R) (o : option number) :
  o = Some (Fin r) -> r <> 0 -> or_else o (Fin d) = Fin r.
Proof. intros -> Hr. cbn. now rewrite Reqb_false. Qed.

(** X14.  For parameters [n >= 1] (a natural number) and a finite [p]
    other than 0, the binomial data has the [n + 1] points [k = 0, ..., n],
    in order, and their [y] values add up to 1.  The range argument is not
    used. *)
Theorem generateDistributionData_binomial :
  forall (fuel : nat) (ps : params) (range : FunctionRange) (n : nat) (p : R),
    lookup ps "n" = Some (of_nat n) -> (1 <= n)%nat ->
    lookup ps "p" = Some (Fin p) -> p <> 0 ->
    exists points : list Point,
      Data.generateDistributionData fuel Dist.binomial ps range
      = Some (Ret points)
      /\ map x points = map of_nat (seq 0 (S n))
      /\ sum_y points = Fin 1.
Proof.
  intros fuel ps range n p Hn Hn1 Hp Hp0.
  unfold Data.generateDistributionData.
  rewrite (or_else_nonzero (INR n) 10 _ Hn) by (apply not_0_INR; lia).
  rewrite (or_else_nonzero p (1 / 2) _ Hp Hp0).
  fold (of_nat n).
  rewrite (for_upto_0_push n _
             (fun k => {| x := of_nat k;
                          y := Fin (C n k * p ^ k * (1 - p) ^ (n - k)) |})).
  - eexists. split; [reflexivity |]. split.
    + rewrite map_map. reflexivity.
    + rewrite sum_y_terms, <- binomial.
      replace (p + (1 - p)) with 1 by ring. now rewrite pow1.
  - intros k acc Hk. now rewrite binomialPMF_in_support.
Qed.

Lemma generateDistributionData_binomial_witness :
  exists points : list Point,
    Data.generateDistributionData 0 Dist.binomial
      [("n"%string, of_nat 3); ("p"%string, Fin (1 / 4))]
      (finite_range 0 1 1)
    = Some (Ret points)
    /\ map x points = map of_nat (seq 0 (S 3))
    /\ sum_y points = Fin 1.
Proof.
  apply (generateDistributionData_binomial 0 _ _ 3 (1 / 4)).
  - reflexivity.
  - lia.
  - reflexivity.
  - lra.
Defined.

(** X15.  A parameter that is 0, NaN or missing is replaced by its
    default: a binomial [p] of 0 gives the data of [p = 0.5], and a normal
    [stdDev] of 0 gives the data of [stdDev = 1]. *)
Theorem generateDistributionData_falsy_defaults :
  forall (fuel : nat) (ps : params) (range : FunctionRange) (v : number),
    v = Fin 0 \/ v = NaN ->
    Data.generateDistributionData fuel Dist.binomial
      (("p"%string, v) :: ps) range
    = Data.generateDistributionData fuel Dist.binomial
        (("p"%string, Fin (1 / 2)) :: ps) range
    /\ Data.generateDistributionData fuel Dist.normal
         (("stdDev"%string, v) :: ps) range
       = Data.generateDistributionData fuel Dist.normal
           (("stdDev"%string, Fin 1) :: ps) range
    /\ Data.generateDistributionData fuel Dist.poisson
         (("lambda"%string, v) :: ps) range
       = Data.generateDistributionData fuel Dist.poisson
           (("lambda"%string, Fin 1) :: ps) range.
Proof.
  intros fuel ps range v Hv.
  assert (H : forall d : R, d <> 0 -> or_else (Some v) (Fin d) = Fin d
                            /\ or_else (Some (Fin d)) (Fin d) = Fin d).
  { intros d Hd. split.
    - destruct Hv as [-> | ->]; cbn; [now rewrite Reqb_true | reflexivity].
    - cbn. now rewrite Reqb_false. }
  destruct (H (1 / 2)) as [H1 H2]; [lra |].
  destruct (H 1) as [H3 H4]; [lra |].
  unfold Data.generateDistributionData.
  cbn [lookup String.eqb Ascii.eqb Bool.eqb].
  rewrite H1, H2, H3, H4. repeat split.
Qed.

Lemma generateDistributionData_falsy_defaults_witness :
  Data.generateDistributionData 5 Dist.binomial
    [("p"%string, Fin 0)] (finite_range 0 1 1)
  = Data.generateDistributionData 5 Dist.binomial
      [("p"%string, Fin (1 / 2))] (finite_range 0 1 1)
  /\ Data.generateDistributionData 5 Dist.normal
       [("stdDev"%string, Fin 0)] (finite_range 0 1 1)
     = Data.generateDistributionData 5 Dist.normal
         [("stdDev"%string, Fin 1)] (finite_range 0 1 1)
  /\ Data.generateDistributionData 5 Dist.poisson
       [("lambda"%string, Fin 0)] (finite_range 0 1 1)
     = Data.generateDistributionData 5 Dist.poisson
         [("lambda"%string, Fin 1)] (finite_range 0 1 1).
Proof.
  apply (generateDistributionData_falsy_defaults 5 [] (finite_range 0 1 1)
           (Fin 0)).
  now left.
Defined.

(** X16.  In exact arithmetic (no rounding, overflow or underflow), for a
    finite [lambda > 0] the Poisson data has the points [k = 0, ..., K] with
    [K = min(20, ceil(3 * lambda))], each with the mass
    [lambda^k * exp(-lambda) / k!]: at least two points and never more than
    21. *)
Theorem generateDistributionData_poisson :
  forall (fuel : nat) (ps : params) (range : FunctionRange) (lambda : R),
    lookup ps "lambda" = Some (Fin lambda) -> 0 < lambda ->
    exists points : list Point,
      Data.generateDistributionData fuel Dist.poisson ps range
      = Some (Ret points)
      /\ points
         = map (fun k => {| x := of_nat k;
                            y := Fin (lambda ^ k * exp (- lambda)
                                      / INR (fact k)) |})
             (seq 0 (S (Z.to_nat (Z.min 20 (Zceil (lambda * 3))))))
      /\ (2 <= List.length points <= 21)%nat.
Proof.
  intros fuel ps range lambda Hl Hpos.
  unfold Data.generateDistributionData.
  rewrite (or_else_nonzero lambda 1 _ Hl) by lra.
  assert (Hc : (1 <= Zceil (lambda * 3))%Z).
  { assert (0 < Zceil (lambda * 3))%Z; [| lia].
    apply lt_IZR. pose proof (Zceil_bound (lambda * 3)). lra. }
  set (K := Z.to_nat (Z.min 20 (Zceil (lambda * 3)))).
  assert (HK : Math.min (Fin 20) (MathMore.ceil (Fin lambda * Fin 3))
               = of_nat K).
  { cbn [mul MathMore.ceil Math.min le]. unfold of_nat, K.
    rewrite INR_IZR_INZ, Z2Nat.id by lia.
    destruct (Z_le_gt_dec 20 (Zceil (lambda * 3))) as [Hle | Hgt].
    - rewrite Rleb_true by now apply IZR_le.
      now rewrite Z.min_l.
    - rewrite Rleb_false by (apply IZR_lt; lia).
      now rewrite Z.min_r by lia. }
  rewrite HK.
  rewrite (for_upto_0_push K _
             (fun k => {| x := of_nat k;
                          y := Fin (lambda ^ k * exp (- lambda)
                                    / INR (fact k)) |})).
  - eexists. split; [reflexivity |]. split; [reflexivity |].
    rewrite length_map, length_seq. unfold K. lia.
  - intros k acc Hk. unfold MathUtils.poissonPMF.
    rewrite factorial_fact. cbn [bind]. unfold of_nat. rewrite pow_nat.
    cbn [neg Math.exp mul div].
    now rewrite Reqb_false by apply INR_fact_neq_0.
Qed.

Lemma generateDistributionData_poisson_witness :
  exists points : list Point,
    Data.generateDistributionData 0 Dist.poisson
      [("lambda"%string, Fin 2)] (finite_range 0 1 1)
    = Some (Ret points)
    /\ points
       = map (fun k => {| x := of_nat k;
                          y := Fin (2 ^ k * exp (- (2)) / INR (fact k)) |})
           (seq 0 (S (Z.to_nat (Z.min 20 (Zceil (2 * 3))))))
    /\ (2 <= List.length points <= 21)%nat.
Proof.
  apply (generateDistributionData_poisson 0 _ _ 2).
  - reflexivity.
  - lra.
Defined.

(** The continuous families are not filtered: over a finite range
    with a positive step the normal and the exponential data have exactly
    one point for each grid value, with the density at that value, whether
    it is finite or not. *)
Lemma generateDistributionData_continuous :
  forall (fuel : nat) (ps : params) (lo hi st : R),
    0 < st ->
    (Z.to_nat (floor_count lo hi st) < fuel)%nat ->
    Data.generateDistributionData fuel Dist.normal ps (finite_range lo hi st)
    = Some (Ret (map (fun v =>
                        {| x := v;
                           y := Distributions.normalPDF v
                                  (Some (or_else (lookup ps "mean") (Fin 0)))
                                  (Some (or_else (lookup ps "stdDev") (Fin 1)))
                        |})
                   (grid lo st (Z.to_nat (floor_count lo hi st)))))
    /\ Data.generateDistributionData fuel Dist.exponential ps
         (finite_range lo hi st)
       = Some (Ret (map (fun v =>
                           {| x := v;
                              y := Distributions.exponentialPDF v
                                     (or_else (lookup ps "lambda") (Fin 1))
                           |})
                      (grid lo st (Z.to_nat (floor_count lo hi st))))).
Proof.
  intros fuel ps lo hi st Hst Hfuel.
  unfold Data.generateDistributionData. cbn [finite_range max min step].
  rewrite !range_loop_finite by assumption. cbv beta zeta.
  split.
  - now rewrite (fold_left_snoc_map
                   (fun v =>
                      {| x := v;
                         y := Distributions.normalPDF v
                                (Some (or_else (lookup ps "mean") (Fin 0)))
                                (Some (or_else (lookup ps "stdDev") (Fin 1)))
                      |})).
  - now rewrite (fold_left_snoc_map
                   (fun v =>
                      {| x := v;
                         y := Distributions.exponentialPDF v
                                (or_else (lookup ps "lambda") (Fin 1)) |})).
Qed.

(** ** Fourier data *)

Lemma foldM_push_pair {A I : Type} (g : I -> A) (xs : list I) :
  forall a b : list A,
    foldM (fun i (fm : list A * list A) =>
             Ret (fst fm ++ [g i], snd fm ++ [g i])) xs (a, b)
    = Ret (a ++ map g xs, b ++ map g xs).
Proof.
  induction xs as [| i xs IH]; intros a b; cbn [foldM map bind fst snd].
  - now rewrite !app_nil_r.
  - rewrite IH, <- !app_assoc. reflexivity.
Qed.

Lemma Zceil_half (N : nat) : Zceil (INR N / 2) = Z.of_nat ((N + 1) / 2).
Proof.
  apply Zceil_eq.
  pose proof (Nat.div_mod_eq (N + 1) 2) as Hdm.
  pose proof (Nat.mod_upper_bound (N + 1) 2 ltac:(lia)) as Hr.
  set (q := ((N + 1) / 2)%nat) in *. set (r := ((N + 1) mod 2)%nat) in *.
  assert (HN : INR N = 2 * INR q + INR r - 1).
  { replace (INR N) with (INR (N + 1) - 1) by (rewrite plus_INR; cbn; lra).
    rewrite Hdm, plus_INR, mult_INR. cbn [INR]. lra. }
  rewrite <- INR_IZR_INZ, HN.
  assert (Hr' : 0 <= INR r <= 1).
  { split; [apply pos_INR |]. change 1 with (INR 1). apply le_INR. lia. }
  lra.
Qed.

Lemma map_nth_error_firstn {A B : Type} (h : option A -> B) (l : list A) :
  forall k : nat,
    (k <= List.length l)%nat ->
    map (fun i => h (nth_error l i)) (seq 0 k)
    = map (fun v => h (Some v)) (firstn k l).
Proof.
  induction l as [| a l IH]; intros k Hk.
  - cbn in Hk. now replace k with 0%nat by lia.
  - destruct k as [| k]; [reflexivity |].
    cbn [seq map firstn nth_error]. f_equal.
    rewrite <- seq_shift, map_map. cbn [nth_error].
    apply IH. cbn in Hk. lia.
Qed.

Lemma magnitude_not_NaN (v : number) :
  MathMore.abs (or_else (Some v) (Fin 0)) = PInf
  \/ exists r : R, MathMore.abs (or_else (Some v) (Fin 0)) = Fin r /\ 0 <= r.
Proof.
  destruct v as [| | | r]; cbn [or_else MathMore.abs].
  - right. exists (Rabs 0). split; [reflexivity | apply Rabs_pos].
  - now left.
  - now left.
  - right.
    destruct (Reqb r 0); eexists; (split; [reflexivity | apply Rabs_pos]).
Qed.

(** X17.  [generateFourierData] does not transform the signal.  The time
    domain has one point per sample, carrying the samples in order.  The
    frequency domain and the magnitude are the same list: one point for each
    of the first [ceil(N / 2)] samples, whose [y] is the absolute value of
    that sample, with 0 in place of NaN; no [y] there is NaN or negative. *)
Theorem generateFourierData_shape :
  forall (signal : list number) (sampleRate : option number),
    exists fd : FourierData,
      Data.generateFourierData signal sampleRate = Ret fd
      /\ map y (timeDomain fd) = signal
      /\ frequencyDomain fd = magnitude fd
      /\ map y (frequencyDomain fd)
         = map (fun v => MathMore.abs (or_else (Some v) (Fin 0)))
             (firstn ((List.length signal + 1) / 2) signal)
      /\ Forall (fun pt => y pt = PInf
                           \/ exists r : R, y pt = Fin r /\ 0 <= r)
           (frequencyDomain fd).
Proof.
  intros signal sampleRate.
  assert (Hhalf : ((List.length signal + 1) / 2 <= List.length signal)%nat).
  { destruct (List.length signal) as [| n]; [reflexivity |].
    apply Nat.Div0.div_le_upper_bound. lia. }
  unfold Data.generateFourierData.
  assert (Hids : below_num (of_nat (List.length signal) / Fin 2)
                 = Some (seq 0 ((List.length signal + 1) / 2))).
  { unfold of_nat. cbn [div]. rewrite (Reqb_false 2 0) by lra.
    cbn [below_num]. now rewrite Zceil_half, Nat2Z.id. }
  cbv zeta. rewrite Hids.
  rewrite (foldM_push_pair
             (fun i =>
                {| x := (of_nat i * default (Fin 1000) sampleRate
                         / of_nat (List.length signal))%num;
                   y := MathMore.abs (or_else (array_at signal i) (Fin 0)) |})).
  cbn [bind app]. eexists. split; [reflexivity |].
  cbn [timeDomain frequencyDomain magnitude].
  assert (Hy : map y
                 (map (fun i =>
                         {| x := (of_nat i * default (Fin 1000) sampleRate
                                  / of_nat (List.length signal))%num;
                            y := MathMore.abs
                                   (or_else (array_at signal i) (Fin 0)) |})
                    (seq 0 ((List.length signal + 1) / 2)))
               = map (fun v => MathMore.abs (or_else (Some v) (Fin 0)))
                   (firstn ((List.length signal + 1) / 2) signal)).
  { rewrite map_map. cbn [y]. unfold array_at.
    now apply (map_nth_error_firstn
                 (fun o => MathMore.abs (or_else o (Fin 0)))). }
  split; [| split; [reflexivity | split; [exact Hy |]]].
  - rewrite (fold_left_snoc_map
               (fun i => {| x := (of_nat i / default (Fin 1000) sampleRate)%num;
                            y := array_get signal i |})).
    cbn [app]. rewrite map_map. cbn [y]. unfold below.
    apply map_array_get_seq.
  - apply Forall_map, Forall_forall. intros i _. cbn [y]. unfold array_at.
    destruct (nth_error signal i) as [v |]; [apply magnitude_not_NaN |].
    right. exists (Rabs 0). split; [reflexivity | apply Rabs_pos].
Qed.

(** ** Extrema and sums of arrays of finite numbers *)

Lemma fold_min_finite (rs : list R) :
  forall a : R,
    fold_left Math.min (map Fin rs) (Fin a) = Fin (fold_left Rmin rs a).
Proof.
  induction rs as [| r rs IH]; intros a; [reflexivity |].
  cbn [map fold_left Math.min le]. rewrite <- IH. f_equal.
  unfold Rmin, Rleb. destruct (Rle_dec a r); reflexivity.
Qed.

Lemma fold_max_finite (rs : list R) :
  forall a : R,
    fold_left Math.max (map Fin rs) (Fin a) = Fin (fold_left Rmax rs a).
Proof.
  induction rs as [| r rs IH]; intros a; [reflexivity |].
  cbn [map fold_left Math.max le]. rewrite <- IH. f_equal.
  unfold Rmax, Rleb. destruct (Rle_dec a r); reflexivity.
Qed.

Lemma fold_Rmin_spec (rs : list R) :
  forall a : R,
    (fold_left Rmin rs a = a \/ In (fold_left Rmin rs a) rs)
    /\ fold_left Rmin rs a <= a
    /\ (forall r : R, In r rs -> fold_left Rmin rs a <= r).
Proof.
  induction rs as [| r rs IH]; intros a; cbn [fold_left In].
  - repeat split; [now left | lra | contradiction].
  - destruct (IH (Rmin a r)) as [Hin [Hle Hall]].
    pose proof (Rmin_l a r). pose proof (Rmin_r a r).
    repeat split.
    + destruct Hin as [Heq | Hin]; [| right; now right].
      rewrite Heq. unfold Rmin. destruct (Rle_dec a r); [now left |].
      right. now left.
    + lra.
    + intros r' [<- | Hr']; [lra | now apply Hall].
Qed.

Lemma fold_Rmax_spec (rs : list R) :
  forall a : R,
    (fold_left Rmax rs a = a \/ In (fold_left Rmax rs a) rs)
    /\ a <= fold_left Rmax rs a
    /\ (forall r : R, In r rs -> r <= fold_left Rmax rs a).
Proof.
  induction rs as [| r rs IH]; intros a; cbn [fold_left In].
  - repeat split; [now left | lra | contradiction].
  - destruct (IH (Rmax a r)) as [Hin [Hle Hall]].
    pose proof (Rmax_l a r). pose proof (Rmax_r a r).
    repeat split.
    + destruct Hin as [Heq | Hin]; [| right; now right].
      rewrite Heq. unfold Rmax. destruct (Rle_dec a r); [| now left].
      right. now left.
    + lra.
    + intros r' [<- | Hr']; [lra | now apply Hall].
Qed.

(** The extrema of a non-empty array of finite numbers are elements of it
    that bound the others. *)
Lemma min_of_finite (r0 : R) (rs : list R) :
  exists lo : R,
    Math.min_of (map Fin (r0 :: rs)) = Fin lo
    /\ In lo (r0 :: rs)
    /\ (forall r : R, In r (r0 :: rs) -> lo <= r).
Proof.
  unfold Math.min_of. cbn [map fold_left Math.min le].
  rewrite fold_min_finite.
  destruct (fold_Rmin_spec rs r0) as [Hin [Hle Hall]].
  eexists. split; [reflexivity |]. split.
  - destruct Hin as [-> | Hin]; [now left | now right].
  - intros r [<- | Hr]; [exact Hle | now apply Hall].
Qed.

Lemma max_of_finite (r0 : R) (rs : list R) :
  exists hi : R,
    Math.max_of (map Fin (r0 :: rs)) = Fin hi
    /\ In hi (r0 :: rs)
    /\ (forall r : R, In r (r0 :: rs) -> r <= hi).
Proof.
  unfold Math.max_of. cbn [map fold_left Math.max le].
  rewrite fold_max_finite.
  destruct (fold_Rmax_spec rs r0) as [Hin [Hle Hall]].
  eexists. split; [reflexivity |]. split.
  - destruct Hin as [-> | Hin]; [now left | now right].
  - intros r [<- | Hr]; [exact Hle | now apply Hall].
Qed.

Lemma fold_add_finite (rs : list R) :
  forall a : R,
    fold_left (fun sum val => (sum + val)%num) (map Fin rs) (Fin a)
    = Fin (fold_left Rplus rs a).
Proof.
  induction rs as [| r rs IH]; intros a; [reflexivity |].
  cbn [map fold_left add]. apply IH.
Qed.

Lemma fold_Rplus_bounds (lo hi : R) (rs : list R) :
  (forall r : R, In r rs -> lo <= r <= hi) ->
  forall a : R,
    a + INR (List.length rs) * lo <= fold_left Rplus rs a
    <= a + INR (List.length rs) * hi.
Proof.
  induction rs as [| r rs IH]; intros Hall a.
  - cbn. lra.
  - cbn [fold_left]. change (List.length (r :: rs)) with (S (List.length rs)).
    rewrite S_INR.
    pose proof (Hall r (or_introl eq_refl)) as Hr.
    specialize (IH (fun r' Hr' => Hall r' (or_intror Hr')) (a + r)).
    lra.
Qed.

(** ** constants.ts *)

(** The loop of [generateRange] and the sampling loop visit the same
    values: from states that agree, and with the same fuel, one collects the
    [x] of the points the other collects. *)
Lemma range_loop_is_sample_loop (f : jsfun) (range : FunctionRange)
    (st : R) (fuel : nat) :
  (forall v : R, exists r : R, f (Fin v) = Some (Fin r)) ->
  step range = Fin st ->
  forall (v : R) (points : list Point),
    range_loop fuel (max range) (Fin st) (fun i result => result ++ [i])
      (Fin v) (map x points)
    = option_map (map x) (MathUtils.sample_loop fuel f range (Fin v) points).
Proof.
  intros Hf Hst. induction fuel as [| fuel IH]; intros v points;
    [reflexivity |].
  cbn [range_loop MathUtils.sample_loop]. rewrite Hst.
  destruct (Fin v <=? max range)%num; [| reflexivity].
  destruct (Hf v) as [r ->]. cbn [isFinite isNaN andb negb add].
  rewrite <- IH, map_app. reflexivity.
Qed.

(** X18.  For a finite [start] and a finite [step], and any [end],
    [generateRange(start, end, step)] returns the [x] of the points that
    [generateFunctionPoints] returns on the range
    [{min: start, max: end, step}] for a function that is finite at every
    finite argument: the two loops visit the same values and end
    together.  The default step is 1. *)
Theorem generateRange_sampling_values :
  forall (f : jsfun) (lo st : R) (hi : number) (fuel : nat),
    (forall v : R, exists r : R, f (Fin v) = Some (Fin r)) ->
    Constants.generateRange fuel (Fin lo) hi (Some (Fin st))
    = option_map (map x)
        (MathUtils.generateFunctionPoints fuel f
           {| min := Fin lo; max := hi; step := Fin st |})
    /\ Constants.generateRange fuel (Fin lo) hi None
       = option_map (map x)
           (MathUtils.generateFunctionPoints fuel f
              {| min := Fin lo; max := hi; step := Fin 1 |}).
Proof.
  intros f lo st hi fuel Hf.
  unfold Constants.generateRange, MathUtils.generateFunctionPoints.
  cbn [default min].
  split.
  - exact (range_loop_is_sample_loop f
             {| min := Fin lo; max := hi; step := Fin st |} st fuel Hf
             eq_refl lo []).
  - exact (range_loop_is_sample_loop f
             {| min := Fin lo; max := hi; step := Fin 1 |} 1 fuel Hf
             eq_refl lo []).
Qed.

Lemma generateRange_sampling_values_witness :
  Constants.generateRange 4 (Fin 0) (Fin 5) (Some (Fin 2))
  = option_map (map x)
      (MathUtils.generateFunctionPoints 4 (fun v => Some v)
         {| min := Fin 0; max := Fin 5; step := Fin 2 |})
  /\ Constants.generateRange 4 (Fin 0) (Fin 5) None
     = option_map (map x)
         (MathUtils.generateFunctionPoints 4 (fun v => Some v)
            {| min := Fin 0; max := Fin 5; step := Fin 1 |}).
Proof.
  apply (generateRange_sampling_values (fun v => Some v) 0 2 (Fin 5) 4).
  intros v. now exists v.
Defined.

Lemma clamp_value (v lo hi : R) :
  Constants.clamp (Fin v) (Fin lo) (Fin hi) = Fin (Rmin (Rmax v lo) hi).
Proof.
  unfold Constants.clamp, Math.max, Math.min, Rmin, Rmax, Rleb. cbn [le].
  unfold Rleb. destruct (Rle_dec v lo); cbn [le]; unfold Rleb;
    destruct (Rle_dec _ hi); reflexivity.
Qed.

(** X19.  For finite bounds with [min <= max], [clamp] returns a number
    between them, returns the value itself when it lies between them, and
    clamping a second time changes nothing. *)
Theorem clamp_within_bounds :
  forall v lo hi : R,
    lo <= hi ->
    exists r : R,
      Constants.clamp (Fin v) (Fin lo) (Fin hi) = Fin r
      /\ lo <= r <= hi
      /\ (lo <= v <= hi -> r = v)
      /\ Constants.clamp (Fin r) (Fin lo) (Fin hi) = Fin r.
Proof.
  intros v lo hi Hle. rewrite clamp_value.
  exists (Rmin (Rmax v lo) hi). split; [reflexivity |].
  rewrite clamp_value.
  assert (H : lo <= Rmin (Rmax v lo) hi <= hi
              /\ (lo <= v <= hi -> Rmin (Rmax v lo) hi = v)).
  { unfold Rmin, Rmax.
    destruct (Rle_dec v lo); destruct (Rle_dec _ hi); split; lra. }
  destruct H as [Hb Hid]. repeat split; try lra; try exact Hid.
  f_equal. revert Hb. generalize (Rmin (Rmax v lo) hi) as r. intros r Hb.
  unfold Rmin, Rmax. destruct (Rle_dec r lo); destruct (Rle_dec _ hi); lra.
Qed.

Lemma clamp_within_bounds_witness :
  exists r : R,
    Constants.clamp (Fin 7) (Fin 0) (Fin 5) = Fin r
    /\ 0 <= r <= 5
    /\ (0 <= 7 <= 5 -> r = 7)
    /\ Constants.clamp (Fin r) (Fin 0) (Fin 5) = Fin r.
Proof. apply (clamp_within_bounds 7 0 5). lra. Defined.

(** X20.  The bounds are not checked: when [min > max], [clamp] returns
    [max] for every finite value, even one that lies between the two. *)
Theorem clamp_inverted_bounds :
  forall v lo hi : R,
    hi < lo -> Constants.clamp (Fin v) (Fin lo) (Fin hi) = Fin hi.
Proof.
  intros v lo hi Hlt. rewrite clamp_value. f_equal.
  unfold Rmin, Rmax. destruct (Rle_dec v lo); destruct (Rle_dec _ hi); lra.
Qed.

Lemma clamp_inverted_bounds_witness :
  Constants.clamp (Fin 3) (Fin 5) (Fin 1) = Fin 1.
Proof. apply (clamp_inverted_bounds 3 5 1). lra. Defined.

(** X21.  For [fromMin <> fromMax] and [toMin <> toMax], [mapRange] sends
    the ends of the first interval to the ends of the second, and mapping
    back with the intervals exchanged returns the value. *)
Theorem mapRange_round_trip :
  forall v a b c d : R,
    a <> b -> c <> d ->
    exists w : R,
      Constants.mapRange (Fin v) (Fin a) (Fin b) (Fin c) (Fin d) = Fin w
      /\ Constants.mapRange (Fin w) (Fin c) (Fin d) (Fin a) (Fin b) = Fin v
      /\ Constants.mapRange (Fin a) (Fin a) (Fin b) (Fin c) (Fin d) = Fin c
      /\ Constants.mapRange (Fin b) (Fin a) (Fin b) (Fin c) (Fin d) = Fin d.
Proof.
  intros v a b c d Hab Hcd.
  assert (H : forall t p q r s : R, p <> q ->
            Constants.mapRange (Fin t) (Fin p) (Fin q) (Fin r) (Fin s)
            = Fin (r + (t + - p) / (q + - p) * (s + - r))).
  { intros t p q r s Hpq. unfold Constants.mapRange.
    cbn [sub neg add div]. rewrite Reqb_false by lra. reflexivity. }
  exists (c + (v + - a) / (b + - a) * (d + - c)).
  rewrite !H by assumption.
  repeat split; f_equal; field; lra.
Qed.

Lemma mapRange_round_trip_witness :
  exists w : R,
    Constants.mapRange (Fin 3) (Fin 0) (Fin 10) (Fin 100) (Fin 200) = Fin w
    /\ Constants.mapRange (Fin w) (Fin 100) (Fin 200) (Fin 0) (Fin 10) = Fin 3
    /\ Constants.mapRange (Fin 0) (Fin 0) (Fin 10) (Fin 100) (Fin 200)
       = Fin 100
    /\ Constants.mapRange (Fin 10) (Fin 0) (Fin 10) (Fin 100) (Fin 200)
       = Fin 200.
Proof. apply (mapRange_round_trip 3 0 10 100 200); lra. Defined.

(** An empty source interval is not rejected: with
    [fromMin = fromMax] the quotient is a division by 0 and the result is
    never a finite number. *)
Lemma mapRange_degenerate :
  forall v a c d : R,
    isFinite (Constants.mapRange (Fin v) (Fin a) (Fin a) (Fin c) (Fin d))
    = false.
Proof.
  intros v a c d. unfold Constants.mapRange.
  apply add_not_finite_r. apply mul_not_finite_l.
  cbn [sub neg add div]. rewrite (Reqb_true (a + - a) 0) by ring.
  apply signed_inf_not_finite.
Qed.

Lemma calculateMean_finite (r0 : R) (rs : list R) :
  Constants.calculateMean (map Fin (r0 :: rs))
  = Fin (fold_left Rplus (r0 :: rs) 0 / INR (List.length (r0 :: rs))).
Proof.
  unfold Constants.calculateMean. rewrite length_map.
  change (List.length (r0 :: rs) =? 0)%nat with false. cbv iota.
  rewrite fold_add_finite. unfold of_nat. cbn [div].
  rewrite Reqb_false; [reflexivity |]. apply not_0_INR. discriminate.
Qed.

(** X22.  The mean of no data is 0, not NaN; in exact arithmetic (no
    rounding and no overflow) the mean of a non-empty array of finite
    numbers is finite and lies between any two bounds of the array. *)
Theorem calculateMean_between :
  forall (r0 : R) (rs : list R) (lo hi : R),
    (forall r : R, In r (r0 :: rs) -> lo <= r <= hi) ->
    Constants.calculateMean [] = Fin 0
    /\ exists m : R,
         Constants.calculateMean (map Fin (r0 :: rs)) = Fin m
         /\ lo <= m <= hi.
Proof.
  intros r0 rs lo hi Hall. split; [reflexivity |].
  rewrite calculateMean_finite. eexists. split; [reflexivity |].
  pose proof (fold_Rplus_bounds lo hi (r0 :: rs) Hall 0) as Hs.
  assert (Hn : 0 < INR (List.length (r0 :: rs))).
  { apply lt_0_INR. cbn. lia. }
  set (n := INR (List.length (r0 :: rs))) in *.
  set (S := fold_left Rplus (r0 :: rs) 0) in *.
  split.
  - apply (Rmult_le_reg_r n); [assumption |].
    replace (S / n * n) with S by (field; lra). lra.
  - apply (Rmult_le_reg_r n); [assumption |].
    replace (S / n * n) with S by (field; lra). lra.
Qed.

Lemma calculateMean_between_witness :
  Constants.calculateMean [] = Fin 0
  /\ exists m : R,
       Constants.calculateMean (map Fin [1; 2; 6]) = Fin m /\ 1 <= m <= 6.
Proof.
  apply (calculateMean_between 1 [2; 6] 1 6).
  intros r [<- | [<- | [<- | []]]]; lra.
Defined.

(** The sum of the squared deviations the loop of [calculateStdDev]
    accumulates. *)
Lemma fold_sq_finite (m : R) (rs : list R) :
  forall a : R,
    fold_left (fun sum val => (sum + Math.pow (val - Fin m) (Fin 2))%num)
      (map Fin rs) (Fin a)
    = Fin (fold_left (fun s r => s + (r + - m) * (r + - m)) rs a).
Proof.
  induction rs as [| r rs IH]; intros a; [reflexivity |].
  cbn [map fold_left sub neg add]. rewrite pow_two. cbn [add]. apply IH.
Qed.

Lemma fold_sq_spec (m : R) (rs : list R) :
  forall a : R,
    a <= fold_left (fun s r => s + (r + - m) * (r + - m)) rs a
    /\ (fold_left (fun s r => s + (r + - m) * (r + - m)) rs a = a
        <-> forall r : R, In r rs -> r = m).
Proof.
  induction rs as [| r rs IH]; intros a; cbn [fold_left In].
  - split; [lra |]. split; [contradiction | reflexivity].
  - destruct (IH (a + (r + - m) * (r + - m))) as [Hle Hiff].
    pose proof (Rle_0_sqr (r + - m)) as Hsq. unfold Rsqr in Hsq.
    split; [lra |]. split.
    + intros Heq.
      assert (H0 : (r + - m) * (r + - m) = 0) by lra.
      assert (Hr : r = m).
      { apply Rmult_integral in H0. destruct H0; lra. }
      intros r' [<- | Hr']; [exact Hr |].
      apply Hiff; [| exact Hr']. lra.
    + intros Hall.
      assert (Hr : r = m) by (apply Hall; now left).
      assert (H0 : (r + - m) * (r + - m) = 0) by (rewrite Hr; ring).
      destruct Hiff as [_ Hback]. rewrite Hback; [lra |].
      intros r' Hr'. apply Hall. now right.
Qed.

(** X23.  The standard deviation of no data is 0; in exact arithmetic (no
    rounding, overflow or underflow) that of a non-empty array of finite
    numbers is a finite number, never negative, and it is 0 exactly when
    all the elements are equal. *)
Theorem calculateStdDev_zero_iff_constant :
  forall (r0 : R) (rs : list R),
    Constants.calculateStdDev [] = Fin 0
    /\ exists sd : R,
         Constants.calculateStdDev (map Fin (r0 :: rs)) = Fin sd
         /\ 0 <= sd
         /\ (sd = 0 <-> forall r : R, In r (r0 :: rs) -> r = r0).
Proof.
  intros r0 rs. split; [reflexivity |].
  unfold Constants.calculateStdDev. rewrite length_map.
  change (List.length (r0 :: rs) =? 0)%nat with false. cbv iota zeta.
  rewrite calculateMean_finite.
  set (n := INR (List.length (r0 :: rs))).
  assert (Hn : 0 < n) by (apply lt_0_INR; cbn; lia).
  set (m := fold_left Rplus (r0 :: rs) 0 / n).
  change (Fin 2) with (Fin 2). rewrite fold_sq_finite.
  destruct (fold_sq_spec m (r0 :: rs) 0) as [Hle Hiff].
  set (S := fold_left (fun s r => s + (r + - m) * (r + - m)) (r0 :: rs) 0)
    in *.
  unfold of_nat. fold n. cbn [div]. rewrite (Reqb_false n 0) by lra.
  assert (Hv : 0 <= S / n).
  { apply Rmult_le_pos; [lra | left; now apply Rinv_0_lt_compat]. }
  unfold MathMore.sqrt. rewrite Rltb_false by exact Hv.
  eexists. split; [reflexivity |]. split; [apply sqrt_pos |].
  split.
  - intros Hsd. apply sqrt_eq_0 in Hsd; [| exact Hv].
    assert (HS : S = 0).
    { replace S with (S / n * n) by (field; lra). rewrite Hsd. ring. }
    destruct Hiff as [Hall _]. specialize (Hall HS).
    intros r Hr. rewrite (Hall r Hr). symmetry. apply Hall. now left.
  - intros Hall.
    assert (Hm : m = r0).
    { pose proof (fold_Rplus_bounds r0 r0 (r0 :: rs)
                    (fun r Hr => ltac:(rewrite (Hall r Hr); lra)) 0) as Hs.
      fold n in Hs. unfold m.
      apply (Rmult_eq_reg_r n); [| lra].
      replace (fold_left Rplus (r0 :: rs) 0 / n * n)
        with (fold_left Rplus (r0 :: rs) 0) by (field; lra).
      lra. }
    destruct Hiff as [_ Hback].
    assert (HS : S = 0).
    { apply Hback. intros r Hr. rewrite Hm. now apply Hall. }
    rewrite HS. replace (0 / n) with 0 by (field; lra). apply sqrt_0.
Qed.

(** X24.  In exact arithmetic (no rounding and no overflow), on an array
    of finite numbers [normalizeArray] keeps the length and returns numbers
    between 0 and 1; when the array has two different values, 0 and 1 are
    both among the results, and when all its values are equal, every result
    is 0.5. *)
Theorem normalizeArray_unit_interval :
  forall (r0 : R) (rs : list R),
    List.length (Constants.normalizeArray (map Fin (r0 :: rs)))
    = List.length (r0 :: rs)
    /\ Forall (fun v => exists r : R, v = Fin r /\ 0 <= r <= 1)
         (Constants.normalizeArray (map Fin (r0 :: rs)))
    /\ ((exists r : R, In r rs /\ r <> r0) ->
        In (Fin 0) (Constants.normalizeArray (map Fin (r0 :: rs)))
        /\ In (Fin 1) (Constants.normalizeArray (map Fin (r0 :: rs))))
    /\ ((forall r : R, In r rs -> r = r0) ->
        Constants.normalizeArray (map Fin (r0 :: rs))
        = repeat (Fin (1 / 2)) (List.length (r0 :: rs))).
Proof.
  intros r0 rs. unfold Constants.normalizeArray.
  destruct (min_of_finite r0 rs) as [lo [-> [Hlo_in Hlo]]].
  destruct (max_of_finite r0 rs) as [hi [-> [Hhi_in Hhi]]].
  assert (Hlh : lo <= hi) by now apply Hlo.
  cbn [sub neg add seq_num].
  destruct (Req_dec_T (hi + - lo) 0) as [Heq | Hne].
  - rewrite Reqb_true by assumption.
    assert (Hconst : forall r : R, In r (r0 :: rs) -> r = r0).
    { intros r Hr. pose proof (Hlo r Hr). pose proof (Hhi r Hr).
      pose proof (Hlo r0 (or_introl eq_refl)).
      pose proof (Hhi r0 (or_introl eq_refl)). lra. }
    split; [now rewrite !length_map |]. split; [| split].
    + apply Forall_map, Forall_forall. intros v _.
      exists (1 / 2). split; [reflexivity | lra].
    + intros [r [Hr Hneq]]. exfalso. apply Hneq. apply Hconst. now right.
    + intros _. rewrite <- (length_map Fin (r0 :: rs)).
      apply map_constant. reflexivity.
  - rewrite Reqb_false by assumption.
    assert (Hpos : 0 < hi + - lo) by lra.
    assert (Hval : forall r : R,
               ((Fin r - Fin lo) / Fin (hi + - lo))%num
               = Fin ((r + - lo) / (hi + - lo))).
    { intros r. cbn [sub neg add div]. now rewrite Reqb_false by assumption. }
    split; [now rewrite !length_map |]. split; [| split].
    + apply Forall_map, Forall_map, Forall_forall. intros r Hr.
      rewrite Hval. eexists. split; [reflexivity |].
      pose proof (Hlo r Hr). pose proof (Hhi r Hr). split.
      * apply Rmult_le_pos; [lra | left; now apply Rinv_0_lt_compat].
      * apply (Rmult_le_reg_r (hi + - lo)); [assumption |].
        replace ((r + - lo) / (hi + - lo) * (hi + - lo)) with (r + - lo)
          by (field; lra).
        lra.
    + intros _. split.
      * apply in_map_iff. exists (Fin lo). split; [| now apply in_map].
        rewrite Hval. f_equal. field. lra.
      * apply in_map_iff. exists (Fin hi). split; [| now apply in_map].
        rewrite Hval. f_equal. field. lra.
    + intros Hall. exfalso. apply Hne.
      assert (Hl : lo = r0).
      { destruct Hlo_in as [<- | Hin]; [reflexivity | now apply Hall]. }
      assert (Hh : hi = r0).
      { destruct Hhi_in as [<- | Hin]; [reflexivity | now apply Hall]. }
      lra.
Qed.

(** ** The histogram with the bounds taken from the data *)

(** X25.  In exact arithmetic (no rounding, overflow or underflow), with
    bounds taken from the data, a histogram of finite numbers that are not
    all equal loses no value: it has [bins] points and the [y] values add up
    to the number of data values. *)
Theorem generateHistogram_derived_bounds :
  forall (r0 : R) (rs : list R) (b : nat),
    (1 <= b)%nat -> (Z.of_nat b <= 4294967295)%Z ->
    (exists r : R, In r rs /\ r <> r0) ->
    exists points : list Point,
      DataUtils.generateHistogram (map Fin (r0 :: rs)) (Some (of_nat b))
        None None = Ret points
      /\ List.length points = b
      /\ sum_y points = of_nat (List.length (r0 :: rs)).
Proof.
  intros r0 rs b Hb Hlen [r1 [Hr1 Hneq]].
  destruct (min_of_finite r0 rs) as [lo [Hmin [_ Hlo]]].
  destruct (max_of_finite r0 rs) as [hi [Hmax [_ Hhi]]].
  assert (Hlt : lo < hi).
  { pose proof (Hlo r0 (or_introl eq_refl)).
    pose proof (Hhi r0 (or_introl eq_refl)).
    pose proof (Hlo r1 (or_intror Hr1)).
    pose proof (Hhi r1 (or_intror Hr1)).
    destruct (Rlt_dec lo hi); [assumption | exfalso; apply Hneq; lra]. }
  destruct (generateHistogram_counts (map Fin (r0 :: rs)) b None None lo hi
              Hb Hlen Hlt Hmin Hmax) as [points [Hret [Hpts Hsum]]].
  exists points. repeat split; try assumption.
  rewrite Hsum. f_equal. unfold count_within.
  rewrite <- (length_map Fin (r0 :: rs)). f_equal.
  apply forallb_filter_id. apply forallb_forall.
  intros v Hv. apply in_map_iff in Hv as [r [<- Hr]].
  unfold ge. cbn [le]. apply andb_true_iff.
  split; apply Rleb_true; [now apply Hlo | now apply Hhi].
Qed.

Lemma generateHistogram_derived_bounds_witness :
  exists points : list Point,
    DataUtils.generateHistogram (map Fin [1; 2; 3; 4]) (Some (of_nat 2))
      None None = Ret points
    /\ List.length points = 2%nat
    /\ sum_y points = of_nat (List.length [1; 2; 3; 4]).
Proof.
  apply (generateHistogram_derived_bounds 1 [2; 3; 4] 2).
  - lia.
  - lia.
  - exists 2. split; [now left | lra].
Defined.

(** ** Sampling *)

(** A loop over [0 .. n - 1] that keeps an invariant indexed by the number
    of rounds made. *)
Lemma foldM_seq_invariant {A : Type} (body : nat -> A -> outcome A)
    (P : nat -> A -> Prop) (n : nat) :
  (forall (i : nat) (a : A),
     (i < n)%nat -> P i a -> exists a' : A, body i a = Ret a' /\ P (S i) a') ->
  forall a : A,
    P 0%nat a -> exists a' : A, foldM body (seq 0 n) a = Ret a' /\ P n a'.
Proof.
  induction n as [| n IH]; intros Hbody a Ha.
  - exists a. now split.
  - destruct (IH (fun i b Hi => Hbody i b (Nat.lt_lt_succ_r _ _ Hi)) a Ha)
      as [a1 [H1 Ha1]].
    destruct (Hbody n a1 (Nat.lt_succ_diag_r n) Ha1) as [a2 [H2 Ha2]].
    exists a2. rewrite seq_S, foldM_app, H1. cbn [bind foldM Nat.add].
    rewrite H2. now split.
Qed.

Lemma for_below_nat {A : Type} (n : nat)
    (body : number -> A -> outcome A) (init : A) :
  for_below (of_nat n) body init
  = foldM (fun i => body (of_nat i)) (seq 0 n) init.
Proof.
  unfold for_below, below_num, of_nat. now rewrite Zceil_INR, Nat2Z.id.
Qed.

Lemma nth_error_map_finite (rs : list R) (j : nat) :
  (j < List.length rs)%nat ->
  exists r : R, nth_error (map Fin rs) j = Some (Fin r) /\ In r rs.
Proof.
  revert j. induction rs as [| r rs IH]; intros j Hj; [cbn in Hj; lia |].
  destruct j as [| j].
  - exists r. split; [reflexivity | now left].
  - destruct (IH j) as [r' [Hr' Hin]]; [cbn in Hj; lia |].
    exists r'. split; [exact Hr' | now right].
Qed.

(** The element a draw [u] in [[0, 1)] selects from a non-empty array. *)
Lemma drawn_element (rs : list R) (u : R) :
  (1 <= List.length rs)%nat ->
  (Z.of_nat (List.length rs) <= 4294967295)%Z ->
  0 <= u < 1 ->
  exists r : R,
    array_at_num (map Fin rs)
      (Math.floor (Fin u * of_nat (List.length (map Fin rs))))
    = Some (Fin r)
    /\ In r rs.
Proof.
  intros HL Hmax Hu. rewrite length_map.
  set (L := List.length rs) in *.
  assert (HLr : 1 <= INR L) by (change 1 with (INR 1); apply le_INR; lia).
  unfold of_nat. cbn [mul Math.floor].
  set (k := Zfloor (u * INR L)).
  pose proof (Zfloor_bound (u * INR L)) as [Hlb Hub]. fold k in Hlb, Hub.
  assert (Hk0 : (0 <= k)%Z) by (apply Zfloor_lub; nra).
  assert (HkL : (k < Z.of_nat L)%Z).
  { apply lt_IZR. rewrite <- INR_IZR_INZ. nra. }
  unfold array_at_num, array_index.
  rewrite is_int_IZR, ZfloorZ.
  rewrite Rleb_true by (apply IZR_le; lia).
  rewrite Rleb_true by (apply IZR_le; lia).
  cbn [andb]. apply nth_error_map_finite. fold L. lia.
Qed.

Lemma fold_add_value_bounds (lo hi : R) (ds : list (option number)) :
  Forall (fun d => exists r : R, d = Some (Fin r) /\ lo <= r <= hi) ds ->
  forall a : R,
    exists t : R,
      fold_left add_value ds (Fin a) = Fin t
      /\ a + INR (List.length ds) * lo <= t
         <= a + INR (List.length ds) * hi.
Proof.
  induction 1 as [| d ds [r [-> Hr]] _ IH]; intros a.
  - exists a. cbn. split; [reflexivity | lra].
  - cbn [fold_left add_value add].
    destruct (IH (a + r)) as [t [Ht Hb]].
    exists t. split; [exact Ht |].
    change (List.length (Some (Fin r) :: ds)) with (S (List.length ds)).
    rewrite S_INR. lra.
Qed.

Section SampleMeans.

Variable random : nat -> number.
Hypothesis random_unit : forall k : nat,
  exists u : R, random k = Fin u /\ 0 <= u < 1.

Variable rs : list R.
Variables lo hi : R.
Hypothesis rs_nonempty : (1 <= List.length rs)%nat.
Hypothesis rs_length : (Z.of_nat (List.length rs) <= 4294967295)%Z.
Hypothesis rs_bounds : forall r : R, In r rs -> lo <= r <= hi.

(** One sample of [m] draws, from the state [s]. *)
Lemma sample_drawn (m s : nat) :
  exists ds : list (option number),
    for_below (of_nat m)
      (fun j (ds : list (option number) * nat) =>
         Ret (fst ds
              ++ [array_at_num (map Fin rs)
                    (Math.floor
                       (random (snd ds)
                        * of_nat (List.length (map Fin rs)))%num)],
              S (snd ds)))
      ([], s)
    = Ret (ds, (s + m)%nat)
    /\ List.length ds = m
    /\ Forall (fun d => exists r : R, d = Some (Fin r) /\ lo <= r <= hi) ds.
Proof.
  rewrite for_below_nat.
  destruct (foldM_seq_invariant
              (fun (i : nat) (ds : list (option number) * nat) =>
                 Ret (fst ds
                      ++ [array_at_num (map Fin rs)
                            (Math.floor
                               (random (snd ds)
                                * of_nat (List.length (map Fin rs)))%num)],
                      S (snd ds)))
              (fun i st =>
                 snd st = (s + i)%nat
                 /\ List.length (fst st) = i
                 /\ Forall (fun d => exists r : R,
                                       d = Some (Fin r) /\ lo <= r <= hi)
                      (fst st))
              m) with (a := (@nil (option number), s))
    as [[ds s'] [Hrun [Hs [Hlen Hall]]]].
  - intros i [ds s1] _ [Hs [Hlen Hall]]. cbn [fst snd] in *.
    eexists. split; [reflexivity |]. cbn [fst snd].
    split; [lia |]. split; [rewrite length_app; cbn; lia |].
    apply Forall_app. split; [exact Hall |].
    constructor; [| constructor].
    destruct (random_unit s1) as [u [-> Hu]].
    destruct (drawn_element rs u rs_nonempty rs_length Hu) as [r [Hr Hin]].
    exists r. split; [exact Hr | now apply rs_bounds].
  - cbn [fst snd]. split; [lia |]. split; [reflexivity | constructor].
  - cbn [fst snd] in *. subst s'. exists ds. now split.
Qed.

Lemma generateSampleMeans_bounds (m N s : nat) :
  (1 <= m)%nat ->
  exists means : list number,
    Sampling.generateSampleMeans random (map Fin rs) (of_nat m) (of_nat N) s
    = Ret (means, (s + N * m)%nat)
    /\ List.length means = N
    /\ Forall (fun v => exists r : R, v = Fin r /\ lo <= r <= hi) means.
Proof.
  intros Hm. unfold Sampling.generateSampleMeans. rewrite for_below_nat.
  assert (Hmr : 0 < INR m) by (apply lt_0_INR; lia).
  match goal with
  | |- context [foldM ?body (seq 0 N) ?init] =>
      destruct (foldM_seq_invariant body
                  (fun i st =>
                     snd st = (s + i * m)%nat
                     /\ List.length (fst st) = i
                     /\ Forall (fun v => exists r : R,
                                           v = Fin r /\ lo <= r <= hi)
                          (fst st))
                  N) with (a := init)
        as [[means s'] [Hrun [Hs [Hlen Hall]]]]
  end.
  - intros i [means s1] _ [Hs [Hlen Hall]]. cbn [fst snd] in *.
    destruct (sample_drawn m s1) as [ds [Hds [Hdlen Hdall]]].
    rewrite Hds. cbn [bind fst snd].
    destruct (fold_add_value_bounds lo hi ds Hdall 0) as [t [Ht Hb]].
    rewrite Ht, Hdlen in *. unfold of_nat at 1. cbn [div].
    rewrite (Reqb_false (INR m) 0) by lra.
    eexists. split; [reflexivity |]. cbn [fst snd].
    split; [lia |]. split; [rewrite length_app; cbn; lia |].
    apply Forall_app. split; [exact Hall |].
    constructor; [| constructor].
    eexists. split; [reflexivity |]. split.
    + apply (Rmult_le_reg_r (INR m)); [assumption |].
      replace (t / INR m * INR m) with t by (field; lra). lra.
    + apply (Rmult_le_reg_r (INR m)); [assumption |].
      replace (t / INR m * INR m) with t by (field; lra). lra.
  - cbn [fst snd]. split; [lia |]. split; [reflexivity | constructor].
  - cbn [fst snd] in *. subst s'. exists means. now split.
Qed.

End SampleMeans.

(** X26.  In exact arithmetic (no rounding and no overflow), with draws in
    [[0, 1)], a population of [1] to [2^32 - 1] finite numbers and a sample
    size [m >= 1], [generateSampleMeans] returns [numSamples] means after
    [numSamples * m] draws, and every mean is a finite number between any
    two bounds of the population; the means of a constant population are
    that constant. *)
Theorem generateSampleMeans_within_population :
  forall (random : nat -> number) (rs : list R) (lo hi : R) (m N s : nat),
    (forall k : nat, exists u : R, random k = Fin u /\ 0 <= u < 1) ->
    (1 <= List.length rs)%nat ->
    (Z.of_nat (List.length rs) <= 4294967295)%Z ->
    (forall r : R, In r rs -> lo <= r <= hi) ->
    (1 <= m)%nat ->
    exists means : list number,
      Sampling.generateSampleMeans random (map Fin rs) (of_nat m) (of_nat N) s
      = Ret (means, (s + N * m)%nat)
      /\ List.length means = N
      /\ Forall (fun v => exists r : R, v = Fin r /\ lo <= r <= hi) means.
Proof.
  intros random rs lo hi m N s Hu Hne Hlen Hb Hm.
  now apply generateSampleMeans_bounds.
Qed.

Lemma generateSampleMeans_within_population_witness :
  exists means : list number,
    Sampling.generateSampleMeans (fun _ => Fin (1 / 2)) (map Fin [1; 2; 6])
      (of_nat 2) (of_nat 3) 0
    = Ret (means, (0 + 3 * 2)%nat)
    /\ List.length means = 3%nat
    /\ Forall (fun v => exists r : R, v = Fin r /\ 1 <= r <= 6) means.
Proof.
  apply (generateSampleMeans_within_population
           (fun _ => Fin (1 / 2)) [1; 2; 6] 1 6 2 3 0).
  - intros k. exists (1 / 2). split; [reflexivity | lra].
  - cbn. lia.
  - cbn. lia.
  - intros r [<- | [<- | [<- | []]]]; lra.
  - lia.
Defined.

Lemma array_at_num_empty (i : number) : array_at_num [] i = None.
Proof.
  unfold array_at_num. destruct (array_index i) as [[| j] |]; reflexivity.
Qed.

Lemma fold_add_value_undefined (m : nat) :
  (fold_left add_value (repeat None m) (Fin 0) / of_nat m)%num = NaN.
Proof.
  destruct m as [| m].
  - cbn [repeat fold_left]. unfold of_nat. cbn [INR div].
    rewrite Reqb_true by reflexivity. unfold signed_inf.
    now rewrite !Rltb_false by lra.
  - cbn [repeat fold_left add_value].
    assert (H : fold_left add_value (repeat None m) NaN = NaN).
    { induction m as [| m IH]; [reflexivity | exact IH]. }
    now rewrite H.
Qed.

(** X27.  An empty population is not rejected: every draw reads
    [undefined], and whatever the random numbers are, every sample mean is
    NaN; the draws are still consumed. *)
Theorem generateSampleMeans_empty_population :
  forall (random : nat -> number) (m N s : nat),
    Sampling.generateSampleMeans random [] (of_nat m) (of_nat N) s
    = Ret (repeat NaN N, (s + N * m)%nat).
Proof.
  intros random m N s. unfold Sampling.generateSampleMeans.
  rewrite for_below_nat.
  assert (Hinner : forall s1 : nat,
             for_below (of_nat m)
               (fun j (ds : list (option number) * nat) =>
                  Ret (fst ds
                       ++ [array_at_num []
                             (Math.floor
                                (random (snd ds)
                                 * of_nat (List.length (@nil number)))%num)],
                       S (snd ds)))
               ([], s1)
             = Ret (repeat None m, (s1 + m)%nat)).
  { intros s1. rewrite for_below_nat.
    match goal with
    | |- foldM ?body (seq 0 m) ?init = _ =>
        destruct (foldM_seq_invariant body
                    (fun i st => st = (repeat None i, (s1 + i)%nat))
                    m) with (a := init) as [st [Hrun ->]]
    end.
    - intros i st _ ->. eexists. split; [reflexivity |]. cbn [fst snd].
      rewrite array_at_num_empty. f_equal; [| lia].
      symmetry. apply repeat_cons.
    - now rewrite Nat.add_0_r.
    - exact Hrun. }
  match goal with
  | |- foldM ?body (seq 0 N) ?init = _ =>
      destruct (foldM_seq_invariant body
                  (fun i st => st = (repeat NaN i, (s + i * m)%nat))
                  N) with (a := init) as [st [Hrun ->]]
  end.
  - intros i st _ ->. cbn [fst snd]. rewrite Hinner. cbn [bind fst snd].
    rewrite fold_add_value_undefined.
    eexists. split; [reflexivity |]. f_equal; [| lia].
    symmetry. apply repeat_cons.
  - now rewrite Nat.add_0_r.
  - exact Hrun.
Qed.

Lemma mul_not_finite_r (a b : number) :
  isFinite b = false -> isFinite (a * b) = false.
Proof.
  destruct a, b; cbn; try congruence; intros _; apply signed_inf_not_finite.
Qed.

(** A loop that pushes one value and makes [d] draws per round. *)
Lemma population_loop (random : nat -> number) (Q : number -> Prop)
    (body : number -> list number * nat -> outcome (list number * nat))
    (d N s : nat) :
  (forall (i : number) (pop : list number) (s1 : nat),
     exists v : number,
       body i (pop, s1) = Ret (pop ++ [v], (s1 + d)%nat) /\ Q v) ->
  exists pop : list number,
    for_below (of_nat N) body ([], s) = Ret (pop, (s + N * d)%nat)
    /\ List.length pop = N
    /\ Forall Q pop.
Proof.
  intros Hbody. rewrite for_below_nat.
  destruct (foldM_seq_invariant (fun i => body (of_nat i))
              (fun i st =>
                 snd st = (s + i * d)%nat
                 /\ List.length (fst st) = i
                 /\ Forall Q (fst st))
              N) with (a := (@nil number, s))
    as [[pop s'] [Hrun [Hs [Hlen Hall]]]].
  - intros i [pop s1] _ [Hs [Hlen Hall]]. cbn [fst snd] in *.
    destruct (Hbody (of_nat i) pop s1) as [v [Hv HQ]].
    eexists. split; [exact Hv |]. cbn [fst snd].
    split; [lia |]. split; [rewrite length_app; cbn; lia |].
    apply Forall_app. split; [exact Hall | now constructor].
  - cbn [fst snd]. split; [lia |]. split; [reflexivity | constructor].
  - cbn [fst snd] in *. subst s'. exists pop. now split.
Qed.

Lemma uniform_draw (u lo hi : R) :
  0 <= u < 1 -> lo < hi ->
  exists r : R,
    (Fin u * (Fin hi - Fin lo) + Fin lo)%num = Fin r /\ lo <= r < hi.
Proof.
  intros Hu Hlt. eexists. split; [reflexivity |]. nra.
Qed.

(** X28.  In exact arithmetic (no rounding and no overflow), with draws in
    [[0, 1)]: [randomInRange(min, max)] with finite [min < max] returns a
    number in [[min, max)]; [randomIntInRange] with integer bounds [a <= b]
    returns an integer from [a] to [b]; and a uniform population of [N]
    values takes [N] draws and lies in [[lo, hi)], where [lo] is
    [params.min || 0] and [hi] is [params.max || 100], the bounds in force,
    with [lo < hi].  These need not be the bounds given: a [max] of 0 is
    replaced by 100, so that the parameters [{min: -4, max: 0}] draw from
    [[-4, 100)]. *)
Theorem uniform_draws_in_range :
  forall (random : nat -> number) (ps : option params) (lo hi : R) (a b : Z)
         (N s : nat),
    (forall k : nat, exists u : R, random k = Fin u /\ 0 <= u < 1) ->
    lo < hi -> (a <= b)%Z ->
    or_else (lookup (default [] ps) "min") (Fin 0) = Fin lo ->
    or_else (lookup (default [] ps) "max") (Fin 100) = Fin hi ->
    (exists r : R,
       Sampling.randomInRange random (Fin lo) (Fin hi) s = (Fin r, S s)
       /\ lo <= r < hi)
    /\ (exists k : Z,
          Sampling.randomIntInRange random (of_Z a) (of_Z b) s = (of_Z k, S s)
          /\ (a <= k <= b)%Z)
    /\ (exists pop : list number,
          Sampling.generatePopulation random Pop.uniform (Some (of_nat N)) ps s
          = Ret (pop, (s + N)%nat)
          /\ List.length pop = N
          /\ Forall (fun v => exists r : R, v = Fin r /\ lo <= r < hi) pop)
    /\ (lookup (default [] ps) "max" = Some (Fin 0) -> hi = 100).
Proof.
  intros random ps lo hi a b N s Hu Hlt Hab Hmin Hmax.
  split; [| split; [| split]].
  - unfold Sampling.randomInRange. destruct (Hu s) as [u [-> Hu01]].
    destruct (uniform_draw u lo hi Hu01 Hlt) as [r [-> Hr]].
    now exists r.
  - unfold Sampling.randomIntInRange, Sampling.randomInRange, of_Z.
    destruct (Hu s) as [u [-> Hu01]]. cbn [fst snd sub neg add mul Math.floor].
    set (t := u * (IZR b + 1 + - IZR a) + IZR a).
    assert (Hab' : IZR a <= IZR b) by now apply IZR_le.
    assert (Ht : IZR a <= t < IZR b + 1) by (unfold t; nra).
    exists (Zfloor t). split; [reflexivity |]. split.
    + apply Zfloor_lub. lra.
    + pose proof (Zfloor_bound t) as [Hlb _].
      assert (Zfloor t < b + 1)%Z; [| lia].
      apply lt_IZR. rewrite plus_IZR. lra.
  - unfold Sampling.generatePopulation. cbn [default]. rewrite Hmin, Hmax.
    replace (s + N)%nat with (s + N * 1)%nat by lia.
    apply population_loop; [exact random |].
    intros i pop s1. cbn [fst snd]. destruct (Hu s1) as [u [-> Hu01]].
    destruct (uniform_draw u lo hi Hu01 Hlt) as [r [-> Hr]].
    eexists. split; [f_equal; f_equal; lia |]. now exists r.
  - intros H0. rewrite H0 in Hmax. cbn [or_else] in Hmax.
    rewrite Reqb_true in Hmax by reflexivity. now injection Hmax.
Qed.

(** The parameters [{min: -4, max: 0}]: the bounds in force are -4 and
    100. *)
Lemma uniform_draws_in_range_witness :
  (exists r : R,
     Sampling.randomInRange (fun _ => Fin (1 / 2)) (Fin (-4)) (Fin 100) 0
     = (Fin r, 1%nat)
     /\ -4 <= r < 100)
  /\ (exists k : Z,
        Sampling.randomIntInRange (fun _ => Fin (1 / 2)) (of_Z 1) (of_Z 6) 0
        = (of_Z k, 1%nat)
        /\ (1 <= k <= 6)%Z)
  /\ (exists pop : list number,
        Sampling.generatePopulation (fun _ => Fin (1 / 2)) Pop.uniform
          (Some (of_nat 4))
          (Some [("min"%string, Fin (-4)); ("max"%string, Fin 0)]) 0
        = Ret (pop, (0 + 4)%nat)
        /\ List.length pop = 4%nat
        /\ Forall (fun v => exists r : R, v = Fin r /\ -4 <= r < 100) pop)
  /\ (lookup
        (default [] (Some [("min"%string, Fin (-4)); ("max"%string, Fin 0)]))
        "max" = Some (Fin 0) ->
      100 = 100).
Proof.
  apply (uniform_draws_in_range (fun _ => Fin (1 / 2))
           (Some [("min"%string, Fin (-4)); ("max"%string, Fin 0)])
           (-4) 100 1 6 4 0).
  - intros k. exists (1 / 2). split; [reflexivity | lra].
  - lra.
  - lia.
  - cbn [default lookup String.eqb Ascii.eqb Bool.eqb or_else].
    now rewrite Reqb_false by lra.
  - cbn [default lookup String.eqb Ascii.eqb Bool.eqb or_else].
    now rewrite Reqb_true by reflexivity.
Defined.




(** X30.  [Math.random()] may return 0, and the Box-Muller transform does
    not guard it: when the first of the two draws is 0 the logarithm is
    [-Infinity] and the value pushed into a normal population is not a
    finite number, whatever the mean, the standard deviation and the second
    draw are. *)
Theorem normal_population_zero_draw :
  forall (random : nat -> number) (ps : option params) (s : nat),
    random s = Fin 0 ->
    exists v : number,
      Sampling.generatePopulation random Pop.normal (Some (of_nat 1)) ps s
      = Ret ([v], S (S s))
      /\ isFinite v = false.
Proof.
  intros random ps s H0. unfold Sampling.generatePopulation.
  cbn [default]. rewrite for_below_nat. cbn [seq foldM bind fst snd app].
  rewrite H0. eexists. split; [reflexivity |].
  apply add_not_finite_r, mul_not_finite_r, mul_not_finite_l.
  unfold MathLog.log. rewrite (Rltb_false 0 0) by lra.
  rewrite (Reqb_true 0 0) by reflexivity. cbn [mul].
  unfold signed_inf. rewrite Rltb_true by lra. reflexivity.
Qed.

Lemma normal_population_zero_draw_witness :
  exists v : number,
    Sampling.generatePopulation (fun _ => Fin 0) Pop.normal (Some (of_nat 1))
      None 7
    = Ret ([v], 9%nat)
    /\ isFinite v = false.
Proof.
  apply (normal_population_zero_draw (fun _ => Fin 0) None 7). reflexivity.
Defined.
